(** * agent-memory-system: working memory, long-term memory, manager, summarizer

    A shallow embedding of the four Python modules under [src/]:
    - [working_memory.py]   : [WorkingMemory] over a Redis list store,
    - [long_term_memory.py] : [LongTermMemory] over a flat vector index,
    - [memory_manager.py]   : [MemoryManager.add_interaction],
    - [memory_summarizer.py]: the summarizer strategies and [MemorySummarizer].

    Conventions.  A Python [int] is a [Z].  [datetime.now().isoformat()] is an
    argument [now] of the operation that reads the clock.  A method that
    catches every exception and returns [False] is a computation in an error
    monad run under [try ... except].  Dictionaries that Python shares by
    reference (the [metadata] argument of [add_memory]) live in an explicit
    object heap. *)

From stdpp Require Import gmap strings list fin_maps pretty.
From Stdlib Require Import ZArith Lia.

Open Scope Z_scope.

(** ** Python sequence helpers *)

Module Py.

(** Normalisation of a slice bound against a sequence of length [len], as
    [PySlice_AdjustIndices] does for a step of 1: a negative bound counts
    from the end and is clipped at 0, a non-negative one is clipped at
    [len]. *)
Definition adjust (i len : Z) : Z :=
  if i <? 0 then Z.max 0 (i + len) else Z.min i len.

(** [l[start:]] *)
Definition slice_from {A} (start : Z) (l : list A) : list A :=
  drop (Z.to_nat (adjust start (Z.of_nat (length l)))) l.

(** [l[:stop]] *)
Definition slice_to {A} (stop : Z) (l : list A) : list A :=
  take (Z.to_nat (adjust stop (Z.of_nat (length l)))) l.

(** The [k] last elements of [l] (all of [l] when it has fewer). *)
Definition last_n {A} (k : nat) (l : list A) : list A :=
  drop (length l - k)%nat l.

(** A JSON-like value stored under a metadata key. *)
Inductive value :=
| VNone
| VStr (s : string)
| VInt (n : Z)
| VList (l : list string).

(** A [dict] with string keys, by value. *)
Abbreviation dict := (gmap string value).

(** Values are compared and used as dictionary keys. *)
#[global] Instance value_eq_dec : EqDecision value.
Proof. solve_decision. Defined.

#[global] Instance value_countable : Countable value.
Proof.
  refine (inj_countable'
    (λ v, match v with
          | VNone => inl ()
          | VStr s => inr (inl s)
          | VInt n => inr (inr (inl n))
          | VList l => inr (inr (inr l))
          end)
    (λ x, match x with
          | inl _ => VNone
          | inr (inl s) => VStr s
          | inr (inr (inl n)) => VInt n
          | inr (inr (inr l)) => VList l
          end) _).
  by intros [].
Defined.

(** [hash(v)] raises on a list. *)
Definition hashable (v : value) : bool :=
  match v with VList _ => false | _ => true end.

End Py.

(** ** working_memory.py *)

Module Redis.

(** One element of a session list: the dictionary [round_data] of
    [add_context].  The store keeps [json.dumps(item)] and readers apply
    [json.loads]; the model keeps the item itself. *)
Record Turn := {
  role : string;
  content : string;
  timestamp : string;
  metadata : Py.dict
}.

(** The server: the list stored under each key (an absent key is the empty
    list) and, for a key that expires, the seconds it has left to live. *)
Record db := {
  lists : gmap string (list Turn);
  ttl : gmap string Z
}.

Definition empty : db := {| lists := ∅; ttl := ∅ |}.

(** A connection answers a number of commands before the server becomes
    unreachable; [None] is a connection that never drops. *)
Definition conn := option nat.

(** Client computations: [None] as result is a raised exception. *)
Definition M (A : Type) : Type := conn → db → option A * conn * db.

Definition ret {A} (a : A) : M A := λ c s, (Some a, c, s).

Definition bind {A B} (m : M A) (k : A → M B) : M B :=
  λ c s, match m c s with
         | (Some a, c', s') => k a c' s'
         | (None, c', s') => (None, c', s')
         end.

(** [try: m except Exception: h] *)
Definition try {A} (m : M A) (h : M A) : M A :=
  λ c s, match m c s with
         | (Some a, c', s') => (Some a, c', s')
         | (None, c', s') => h c' s'
         end.

(** One command sent to the server. *)
Definition command {A} (f : db → A * db) : M A :=
  λ c s, match c with
         | Some O => (None, c, s)
         | Some (S k) => let '(a, s') := f s in (Some a, Some k, s')
         | None => let '(a, s') := f s in (Some a, None, s')
         end.

(** The list a reader finds under [key]. *)
Definition stored (s : db) (key : string) : list Turn :=
  default [] (lists s !! key).

(** [client.lrange(key, 0, -1)] *)
Definition lrange (key : string) : M (list Turn) :=
  command (λ s, (stored s key, s)).

(** [client.delete(key)] *)
Definition delete (key : string) : M unit :=
  command (λ s, (tt, {| lists := base.delete key (lists s);
                        ttl := base.delete key (ttl s) |})).

(** [client.rpush(key, item)] *)
Definition rpush (key : string) (item : Turn) : M unit :=
  command (λ s, (tt, {| lists := <[key := stored s key ++ [item]]> (lists s);
                        ttl := ttl s |})).

(** [client.expire(key, seconds)]: no effect on a key that does not exist. *)
Definition expire (key : string) (seconds : Z) : M unit :=
  command (λ s, (tt, match lists s !! key with
                     | Some _ => {| lists := lists s; ttl := <[key := seconds]> (ttl s) |}
                     | None => s
                     end)).

(** [for item in items: body(item)] *)
Fixpoint for_each {A} (items : list A) (body : A → M unit) : M unit :=
  match items with
  | [] => ret tt
  | x :: rest => bind (body x) (λ _, for_each rest body)
  end.

(** Whether a key with the time-to-live [t] is still there [dt] seconds
    later: it is gone once more than [t] seconds have passed; a key without
    a time-to-live stays. *)
Definition outlives (dt : N) (t : option Z) : bool :=
  match t with
  | Some t => Z.of_N dt <=? t
  | None => true
  end.

(** The server [dt] seconds later, no command having been sent in
    between: the keys whose time-to-live has run out are gone, the others
    have that much less to live. *)
Definition elapse (dt : N) (s : db) : db :=
  {| lists := filter (λ kv, outlives dt (ttl s !! kv.1) = true) (lists s);
     ttl := omap (λ t, if Z.of_N dt <=? t then Some (t - Z.of_N dt)
                       else None) (ttl s) |}.

End Redis.

Module WorkingMemory.
Import Redis.

#[local] Instance client_ret : MRet M := @ret.
#[local] Instance client_bind : MBind M := λ A B k m, bind m k.

(** [f"agent: working_memory:{session_id}"] *)
Definition key_of (session_id : string) : string :=
  "agent: working_memory:" +:+ session_id.

(** [metadata or {}] on an argument that is [None] or a dictionary. *)
Definition or_empty (metadata : option Py.dict) : Py.dict :=
  default ∅ metadata.

(** [WorkingMemory.add_context], for an instance whose [window_size] is
    the first argument. *)
Definition add_context (window_size : Z) (now : string)
    (session_id role content : string) (metadata : option Py.dict) : M bool :=
  try
    (let round_data := {| role := role; content := content;
                          timestamp := now; metadata := or_empty metadata |} in
     let key := key_of session_id in
     existing ← lrange key;
     let existing_list := existing ++ [round_data] in
     let existing_list :=
       if Z.of_nat (length existing_list) >? window_size
       then Py.slice_from (- window_size) existing_list
       else existing_list in
     delete key;;
     for_each existing_list (rpush key);;
     expire key 86400;;
     mret true)
    (mret false).

(** The list [add_context] writes back when it has read [l] and appended
    the new turn to it. *)
Definition window (window_size : Z) (l : list Turn) : list Turn :=
  if Z.of_nat (length l) >? window_size
  then Py.slice_from (- window_size) l else l.

(** [WorkingMemory.get_context] *)
Definition get_context (session_id : string) : M (list Turn) :=
  try (existing ← lrange (key_of session_id); mret existing) (mret []).

(** One [add_context] call as the environment sees it: the seconds passed
    on the server since the call before it, the arguments, the clock and
    the connection the call runs on.  No key is taken to expire while the
    call runs: [add_context] reads the list once and then writes the whole
    of it, so an expiry after its [lrange] shows in nothing it leaves. *)
Record call := {
  c_wait : N;
  c_conn : conn;
  c_now : string;
  c_session : string;
  c_role : string;
  c_content : string;
  c_metadata : option Py.dict
}.

Definition turn_of (c : call) : Turn :=
  {| role := c_role c; content := c_content c;
     timestamp := c_now c; metadata := or_empty (c_metadata c) |}.

Definition run_call (window_size : Z) (c : call) (s : db) : bool * db :=
  match add_context window_size (c_now c) (c_session c) (c_role c)
          (c_content c) (c_metadata c) (c_conn c) (elapse (c_wait c) s) with
  | (Some b, _, s') => (b, s')
  | (None, _, s') => (false, s')
  end.

(** The calls in order; the results are collected with the final store. *)
Fixpoint run (window_size : Z) (cs : list call) (s : db) : list bool * db :=
  match cs with
  | [] => ([], s)
  | c :: rest =>
      let '(b, s') := run_call window_size c s in
      let '(bs, s'') := run window_size rest s' in
      (b :: bs, s'')
  end.

(** What a reader on a working connection gets. *)
Definition read (session_id : string) (s : db) : list Turn :=
  match get_context session_id None s with
  | (Some l, _, _) => l
  | (None, _, _) => []
  end.

(** The turns the calls [cs] add to [session_id], oldest first. *)
Definition turns_for (session_id : string) (cs : list call) : list Turn :=
  turn_of <$> filter (λ c, c_session c = session_id) cs.

(** The seconds a session entry lives after a write: [timedelta(hours=24)]. *)
Definition day : N := 86400.

(** The turns of [session_id] that the calls [cs] leave in the store when
    all of them succeed, before the window is cut: the session starts anew
    whenever more than 24 hours pass without a write to it.  [acc] are the
    turns kept so far and [age] the seconds since the last of them was
    written. *)
Fixpoint kept (session_id : string) (cs : list call) (acc : list Turn)
    (age : N) : list Turn * N :=
  match cs with
  | [] => (acc, age)
  | c :: rest =>
      let age' := (age + c_wait c)%N in
      let acc' := if (day <? age')%N then [] else acc in
      if decide (c_session c = session_id)
      then kept session_id rest (acc' ++ [turn_of c]) 0
      else kept session_id rest acc' age'
  end.

(** What is left of them [w] seconds after the last call. *)
Definition survivors (session_id : string) (cs : list call) (w : N)
    : list Turn :=
  if (day <? (kept session_id cs [] 0).2 + w)%N then []
  else (kept session_id cs [] 0).1.

(** The seconds the calls [cs] span. *)
Definition duration (cs : list call) : N :=
  foldr (λ c n, (c_wait c + n)%N) 0%N cs.

(** A client computation that writes nothing but the entry of [key]. *)
Definition touches_only {A} (key : string) (m : M A) : Prop :=
  ∀ c s k, k ≠ key →
    lists (m c s).2 !! k = lists s !! k ∧ ttl (m c s).2 !! k = ttl s !! k.

(** [f"agent:working_memory:{session_id}"], the key [clear_memory] builds:
    no space after the first colon. *)
Definition clear_key_of (session_id : string) : string :=
  "agent:working_memory:" +:+ session_id.

(** [WorkingMemory.clear_memory] *)
Definition clear_memory (session_id : string) : M bool :=
  try (delete (clear_key_of session_id);; mret true) (mret false).

(** The list [add_context] leaves under the session's key, by the number of
    commands the connection answers: [lrange], [delete], one [rpush] per
    turn of the new window, [expire]. *)
Definition written (window_size : Z) (old : list Turn) (new : Turn)
    (c : conn) : list Turn :=
  match c with
  | None => window window_size (old ++ [new])
  | Some j =>
      if (j <? 2)%nat then old
      else take (j - 2) (window window_size (old ++ [new]))
  end.

(** The commands a call of [add_context] sends when none fails. *)
Definition commands (window_size : Z) (old : list Turn) (new : Turn) : nat :=
  (length (window window_size (old ++ [new])) + 3)%nat.

(** ["\n"] *)
Definition newline : string := String (Ascii.ascii_of_nat 10) "".

(** [sep.join(lines)] *)
Fixpoint join (sep : string) (lines : list string) : string :=
  match lines with
  | [] => ""
  | [x] => x
  | x :: rest => x +:+ sep +:+ join sep rest
  end.

(** The dictionary [get_session_stats] returns. *)
Record SessionStats := {
  stats_session_id : string;
  num_turns : Z;
  user_turns : Z;
  agent_turns : Z
}.

(** [sum(1 for c in context if c.get("role") == r)] *)
Definition count_role (r : string) (context : list Turn) : Z :=
  Z.of_nat (length (filter (λ t, role t = r) context)).

(** [WorkingMemory.get_session_stats] *)
Definition get_session_stats (sid : string) : M SessionStats :=
  context ← get_context sid;
  mret {| stats_session_id := sid;
          num_turns := Z.of_nat (length context);
          user_turns := count_role "user" context;
          agent_turns := count_role "agent" context |}.

Section Upper.

(** [str.upper], a builtin. *)
Variable upper : string → string.

(** [f"{role}: {content}"] with the role in upper case. *)
Definition line_of (turn : Turn) : string :=
  upper (role turn) +:+ ": " +:+ content turn.

(** [WorkingMemory.get_context_text] *)
Definition get_context_text (sid : string) : M string :=
  context ← get_context sid;
  match context with
  | [] => mret ""
  | _ => mret (join newline (line_of <$> context))
  end.

End Upper.

End WorkingMemory.


(** ** The object heap *)

Module Heap.

(** Dictionaries are allocated in order; a reference is the position of
    its object.  A position that holds no object reads as the empty
    dictionary. *)
Abbreviation loc := nat.
Abbreviation heap := (list Py.dict).

Definition deref (h : heap) (l : loc) : Py.dict := default ∅ (h !! l).

Definition alloc (d : Py.dict) (h : heap) : loc * heap :=
  (length h, h ++ [d]).

Definition store (l : loc) (d : Py.dict) (h : heap) : heap := <[l := d]> h.

(** Truth value of an optional dictionary argument: [None] and [{}] are
    false. *)
Definition truthy (h : heap) (o : option loc) : bool :=
  match o with
  | Some l => negb (bool_decide (deref h l = ∅))
  | None => false
  end.

End Heap.

(** ** long_term_memory.py *)

Module LongTermMemory.
Import Heap.

(** A value of [id_to_memory]: the dictionary built by [add_memory], with
    the two keys [update_memory] and [delete_memory] add.  [metadata]
    holds a reference: [metadata or {}] keeps the caller's object. *)
Record Memory := {
  text : string;
  metadata : loc;
  created_at : string;
  id : Z;
  updated_at : option string;
  deleted_at : option string
}.

(** A record as [json.dump] writes it, its metadata by value. *)
Record Stored := {
  s_text : string;
  s_metadata : Py.dict;
  s_created_at : string;
  s_id : Z;
  s_updated_at : option string;
  s_deleted_at : option string
}.

(** What a path leads to when a loader opens it. *)
Inductive artifact (A : Type) :=
| NotFound
| Malformed
| Content (a : A).
Arguments NotFound {A}.
Arguments Malformed {A}.
Arguments Content {A} a.

Section Embedder.

(** Parameters: the type of a vector's components;
    [EmbeddingUtil.get_embedding], whose module is not among the sources
    ([None] when it raises); the builtin [int] on a string ([None] for
    [ValueError]). *)
Context {scalar : Type}.
Variable get_embedding : string → option (list scalar).
Variable int : string → option Z.

(** [faiss.IndexFlatL2]: the dimension [d] and the vectors added so
    far; a vector's position is its rank in that list. *)
Record Index := {
  d : Z;
  vectors : list (list scalar)
}.

Definition ntotal (ix : Index) : Z := Z.of_nat (length (vectors ix)).

(** [index.add(np.array([v]))]: refused unless [v] has [d] components. *)
Definition index_add (ix : Index) (v : list scalar) : option Index :=
  if bool_decide (Z.of_nat (length v) = d ix)
  then Some {| d := d ix; vectors := vectors ix ++ [v] |}
  else None.

(** The attributes of a [LongTermMemory] instance. *)
Record t := {
  vector_dim : Z;
  index : Index;
  id_to_memory : gmap Z Memory;
  next_id : Z
}.

(** [LongTermMemory.__init__] *)
Definition init (vector_dim : Z) : t :=
  {| vector_dim := vector_dim;
     index := {| d := vector_dim; vectors := [] |};
     id_to_memory := ∅;
     next_id := 0 |}.

(** [LongTermMemory.add_memory]; the result is [None] when the call
    raises. *)
Definition add_memory (now : string) (memory_text : string)
    (metadata : option loc) (h : heap) (s : t) : option Z * heap * t :=
  match get_embedding memory_text with
  | None => (None, h, s)
  | Some embedding =>
      match index_add (index s) embedding with
      | None => (None, h, s)
      | Some ix =>
          let '(m, h') :=
            match metadata with
            | Some l => if truthy h metadata then (l, h) else alloc ∅ h
            | None => alloc ∅ h
            end in
          let entry := {| text := memory_text; metadata := m;
                          created_at := now; id := next_id s;
                          updated_at := None; deleted_at := None |} in
          let memory_id := next_id s in
          (Some memory_id, h',
           {| vector_dim := vector_dim s;
              index := ix;
              id_to_memory := <[next_id s := entry]> (id_to_memory s);
              next_id := next_id s + 1 |})
      end
  end.

(** [LongTermMemory.get_memory] *)
Definition get_memory (memory_id : Z) (s : t) : option Memory :=
  id_to_memory s !! memory_id.

(** Truth value of the [text] argument: [None] and [""] are false. *)
Definition text_given (text : option string) : option string :=
  match text with
  | Some "" => None
  | o => o
  end.

(** [LongTermMemory.update_memory] *)
Definition update_memory (now : string) (memory_id : Z)
    (text' : option string) (metadata' : option loc)
    (h : heap) (s : t) : bool * heap * t :=
  match id_to_memory s !! memory_id with
  | None => (false, h, s)
  | Some m =>
      let m1 :=
        match text_given text' with
        | Some x => {| text := x; metadata := metadata m;
                       created_at := created_at m; id := id m;
                       updated_at := updated_at m;
                       deleted_at := deleted_at m |}
        | None => m
        end in
      let h' :=
        match metadata' with
        | Some l =>
            if truthy h metadata'
            then store (metadata m1) (deref h l ∪ deref h (metadata m1)) h
            else h
        | None => h
        end in
      let m2 := {| text := text m1; metadata := metadata m1;
                   created_at := created_at m1; id := id m1;
                   updated_at := Some now;
                   deleted_at := deleted_at m1 |} in
      (true, h',
       {| vector_dim := vector_dim s;
          index := index s;
          id_to_memory := <[memory_id := m2]> (id_to_memory s);
          next_id := next_id s |})
  end.

(** [LongTermMemory.delete_memory] *)
Definition delete_memory (now : string) (memory_id : Z)
    (h : heap) (s : t) : bool * heap * t :=
  match id_to_memory s !! memory_id with
  | Some m =>
      let m' := {| text := text m; metadata := metadata m;
                   created_at := created_at m; id := id m;
                   updated_at := updated_at m;
                   deleted_at := Some now |} in
      (true, h,
       {| vector_dim := vector_dim s;
          index := index s;
          id_to_memory := <[memory_id := m']> (id_to_memory s);
          next_id := next_id s |})
  | None => (false, h, s)
  end.

(** [json.load(f)]: every record read gets a metadata dictionary of its
    own. *)
Fixpoint json_load (items : list (string * Stored)) (h : heap)
    : list (string * Memory) * heap :=
  match items with
  | [] => ([], h)
  | (k, r) :: rest =>
      let '(l, h1) := alloc (s_metadata r) h in
      let m := {| text := s_text r; metadata := l;
                  created_at := s_created_at r; id := s_id r;
                  updated_at := s_updated_at r;
                  deleted_at := s_deleted_at r |} in
      let '(ms, h2) := json_load rest h1 in
      ((k, m) :: ms, h2)
  end.

(** [{int(k): v for k, v in memory_dict.items()}], built from [acc];
    [None] when some [int(k)] raises. *)
Fixpoint int_keys (items : list (string * Memory)) (acc : gmap Z Memory)
    : option (gmap Z Memory) :=
  match items with
  | [] => Some acc
  | (k, v) :: rest =>
      match int k with
      | Some z => int_keys rest (<[z := v]> acc)
      | None => None
      end
  end.

(** [max(int(k) for k in table.keys())]; [None] on the empty table,
    where [load_index] does not evaluate it. *)
Definition max_key (table : gmap Z Memory) : option Z :=
  foldr (λ k o, Some (from_option (Z.max k) k o)) None
        (elements (dom table)).

(** [LongTermMemory.load_index] on the two artifacts its paths lead to.
    Both [except] clauses return [False]. *)
Definition load_index (index_file : artifact Index)
    (map_file : artifact (list (string * Stored)))
    (h : heap) (s : t) : bool * heap * t :=
  match index_file with
  | Content ix =>
      let s1 := {| vector_dim := vector_dim s; index := ix;
                   id_to_memory := id_to_memory s;
                   next_id := next_id s |} in
      match map_file with
      | Content items =>
          let '(memory_dict, h') := json_load items h in
          match int_keys memory_dict ∅ with
          | Some table =>
              (true, h',
               {| vector_dim := vector_dim s;
                  index := ix;
                  id_to_memory := table;
                  next_id := match max_key table with
                             | Some k => k + 1
                             | None => next_id s
                             end |})
          | None => (false, h', s1)
          end
      | _ => (false, h, s1)
      end
  | _ => (false, h, s)
  end.

(** *** Statistics *)

(** [mem.get("metadata", {}).get("type", "unknown")] *)
Definition type_of (h : heap) (m : Memory) : Py.value :=
  default (Py.VStr "unknown") (deref h (metadata m) !! "type").

(** [counts[mem_type] = counts.get(mem_type, 0) + 1], which raises on a
    type that cannot be hashed. *)
Definition count_one (v : Py.value) (counts : gmap Py.value Z)
    : option (gmap Py.value Z) :=
  if Py.hashable v
  then Some (<[v := default 0 (counts !! v) + 1]> counts)
  else None.

(** The loop of [_count_by_type] over the records [ms]. *)
Fixpoint count_types (h : heap) (ms : list Memory) (counts : gmap Py.value Z)
    : option (gmap Py.value Z) :=
  match ms with
  | [] => Some counts
  | m :: rest =>
      match count_one (type_of h m) counts with
      | Some counts' => count_types h rest counts'
      | None => None
      end
  end.

(** [LongTermMemory._count_by_type]; [None] when it raises. *)
Definition count_by_type (h : heap) (s : t) : option (gmap Py.value Z) :=
  count_types h (map_to_list (id_to_memory s)).*2 ∅.

(** The dictionary [get_stats] returns. *)
Record Stats := {
  total_memories : Z;
  index_size : Z;
  vector_dim_ : Z;
  memories_by_type : gmap Py.value Z
}.

(** [LongTermMemory.get_stats]; [None] when it raises, which it does when
    [_count_by_type] does. *)
Definition get_stats (h : heap) (s : t) : option Stats :=
  match count_by_type h s with
  | Some counts =>
      Some {| total_memories := Z.of_nat (size (id_to_memory s));
              index_size := ntotal (index s);
              vector_dim_ := vector_dim s;
              memories_by_type := counts |}
  | None => None
  end.

(** What a caller reads through a record: its fields and the contents
    of the metadata dictionary it refers to. *)
Definition view (h : heap) (m : Memory) : Stored :=
  {| s_text := text m; s_metadata := deref h (metadata m);
     s_created_at := created_at m; s_id := id m;
     s_updated_at := updated_at m; s_deleted_at := deleted_at m |}.

(** The calls a client makes on one instance. *)
Inductive op :=
| AddMemory (now memory_text : string) (metadata : option loc)
| UpdateMemory (now : string) (memory_id : Z) (text : option string)
               (metadata : option loc)
| DeleteMemory (now : string) (memory_id : Z)
| LoadIndex (index_file : artifact Index)
            (map_file : artifact (list (string * Stored)))
| NewDict (contents : Py.dict).

(** What a call hands back. *)
Inductive outcome :=
| Raised
| Id (memory_id : Z)
| Bool (b : bool)
| Ref (l : loc).

Definition step (o : op) (h : heap) (s : t) : outcome * heap * t :=
  match o with
  | AddMemory now x md =>
      let '(r, h', s') := add_memory now x md h s in
      (match r with Some i => Id i | None => Raised end, h', s')
  | UpdateMemory now i x md =>
      let '(b, h', s') := update_memory now i x md h s in (Bool b, h', s')
  | DeleteMemory now i =>
      let '(b, h', s') := delete_memory now i h s in (Bool b, h', s')
  | LoadIndex a b =>
      let '(r, h', s') := load_index a b h s in (Bool r, h', s')
  | NewDict c =>
      let '(l, h') := alloc c h in (Ref l, h', s)
  end.

(** The calls in order, with the state after each of them. *)
Fixpoint trace (os : list op) (h : heap) (s : t)
    : list (outcome * heap * t) :=
  match os with
  | [] => []
  | o :: rest =>
      let '(r, h', s') := step o h s in
      (r, h', s') :: trace rest h' s'
  end.

(** The state the calls leave. *)
Fixpoint exec (os : list op) (h : heap) (s : t) : heap * t :=
  match os with
  | [] => (h, s)
  | o :: rest => let '(_, h', s') := step o h s in exec rest h' s'
  end.

(** The calls other than a reload. *)
Definition crud (o : op) : Prop :=
  match o with LoadIndex _ _ => False | _ => True end.

(** Every id in the table is below the counter. *)
Definition bounded (s : t) : Prop :=
  ∀ k, is_Some (id_to_memory s !! k) → k < next_id s.

(** As many vectors as records, and the counter is their number. *)
Definition paired (s : t) : Prop :=
  ntotal (index s) = Z.of_nat (size (id_to_memory s))
  ∧ next_id s = Z.of_nat (size (id_to_memory s)).

(** The ids the [add_memory] calls of a trace returned. *)
Definition returned_ids (tr : list (outcome * heap * t)) : list Z :=
  omap (λ x, match x.1.1 with Id i => Some i | _ => None end) tr.

(** The ids in the table are the integers from 0 up to the counter, and
    the index holds one vector for each. *)
Definition dense (s : t) : Prop :=
  ntotal (index s) = next_id s
  ∧ ∀ k, is_Some (id_to_memory s !! k) ↔ 0 ≤ k < next_id s.

(** *** Search *)

(** Parameters: Python's floats with the constant [1.0] and the two
    operations [search_similar] applies to them, and [index.search] of the
    flat index ([None] when it raises): for a query vector and a number of
    neighbours, the positions found, nearest first, each with its
    distance; a position is -1 where the index has no neighbour to give. *)
Context {number : Type}.
Variable fone : number.
Variable fadd fdiv : number → number → number.
Variable search : Index → list scalar → Z → option (list (Z * number)).

(** An element of the list [search_similar] returns. *)
Record Hit := {
  hit_id : Z;
  similarity : number;
  distance : number;
  hit_memory : Memory
}.

(** The body of the loop over [zip(ids[0], distances[0])]. *)
Definition hit_of (s : t) (p : Z * number) : option Hit :=
  if 0 <=? p.1 then
    match id_to_memory s !! p.1 with
    | Some m => Some {| hit_id := p.1;
                        similarity := fdiv fone (fadd fone p.2);
                        distance := p.2;
                        hit_memory := m |}
    | None => None
    end
  else None.

(** [LongTermMemory.search_similar] *)
Definition search_similar (query_text : string) (top_k : Z) (s : t)
    : list Hit :=
  if ntotal (index s) =? 0 then []
  else
    match get_embedding query_text with
    | None => []
    | Some query_embedding =>
        match search (index s) query_embedding
                (Z.min top_k (ntotal (index s))) with
        | Some hits => omap (hit_of s) hits
        | None => []
        end
    end.

(** The ids, distances and similarities of a result, in order. *)
Definition ranking (results : list Hit) : list (Z * number * number) :=
  (λ r, (hit_id r, distance r, similarity r)) <$> results.

(** *** Persistence *)

(** Parameter: the builtin [str] on an [int], which [json.dump] applies to
    the keys of the table. *)
Variable str : Z → string.

(** The two files of a store. *)
Record Disk := {
  index_file : artifact Index;
  map_file : artifact (list (string * Stored))
}.

(** What can go wrong while [save_index] writes: the index file is refused
    or left incomplete, the map file is refused or left incomplete. *)
Inductive fault :=
| NoFault
| IndexRefused
| IndexTruncated
| MapRefused
| MapTruncated.

(** [json.dump(self.id_to_memory, f)] *)
Definition dump (h : heap) (table : gmap Z Memory) : list (string * Stored) :=
  (λ p, (str p.1, view h p.2)) <$> map_to_list table.

(** [LongTermMemory.save_index] *)
Definition save_index (f : fault) (h : heap) (s : t) (dk : Disk)
    : bool * Disk :=
  match f with
  | IndexRefused => (false, dk)
  | IndexTruncated =>
      (false, {| index_file := Malformed; map_file := map_file dk |})
  | MapRefused =>
      (false, {| index_file := Content (index s); map_file := map_file dk |})
  | MapTruncated =>
      (false, {| index_file := Content (index s); map_file := Malformed |})
  | NoFault =>
      (true, {| index_file := Content (index s);
                map_file := Content (dump h (id_to_memory s)) |})
  end.

End Embedder.
End LongTermMemory.

(** ** memory_manager.py *)

Module MemoryManager.
Import Heap.

(** [class MemoryPriority(Enum)] *)
Inductive MemoryPriority := LOW | MEDIUM | HIGH | CRITICAL.

Definition value (p : MemoryPriority) : Z :=
  match p with LOW => 1 | MEDIUM => 2 | HIGH => 3 | CRITICAL => 4 end.

Definition name (p : MemoryPriority) : string :=
  match p with
  | LOW => "LOW" | MEDIUM => "MEDIUM" | HIGH => "HIGH" | CRITICAL => "CRITICAL"
  end.

(** [priority in (MemoryPriority.HIGH, MemoryPriority.CRITICAL)] *)
Definition durable (p : MemoryPriority) : bool :=
  match p with HIGH | CRITICAL => true | _ => false end.

(** The dictionary literal of [add_interaction] before the caller's entries
    are spread over it. *)
Definition tags (session_id role : string) (p : MemoryPriority) : Py.dict :=
  <["type" := Py.VStr "interaction"]>
    (<["priority" := Py.VStr (name p)]>
       (<["role" := Py.VStr role]>
          (<["session_id" := Py.VStr session_id]> ∅))).

(** [{..., **(metadata or {})}]: the caller's entries win. *)
Definition interaction_meta (session_id role : string) (p : MemoryPriority)
    (h : heap) (metadata : option loc) : Py.dict :=
  from_option (deref h) ∅ metadata ∪ tags session_id role p.

Section Embedder.

Context {scalar : Type}.
Variable get_embedding : string → option (list scalar).

(** The two stores of a manager, and the heap its callers share with it. *)
Record t := {
  objects : heap;
  redis : Redis.db;
  long_term_memory : @LongTermMemory.t scalar
}.

(** [MemoryManager.add_interaction] for a manager configured with
    [window_size].  [c] is the connection the working-memory write runs on;
    [now_w] and [now_l] are the two readings of the clock.  The value of
    [add_context] is dropped by the caller, and [add_context] raises
    nothing. *)
Definition add_interaction (window_size : Z) (c : Redis.conn)
    (now_w now_l : string) (session_id role content : string)
    (priority : MemoryPriority) (metadata : option loc) (s : t) : bool * t :=
  let '(_, _, db) :=
    WorkingMemory.add_context window_size now_w session_id role content
      (deref (objects s) <$> metadata) c (redis s) in
  if durable priority then
    let '(meta, h1) :=
      alloc (interaction_meta session_id role priority (objects s) metadata)
            (objects s) in
    match LongTermMemory.add_memory get_embedding now_l content (Some meta)
            h1 (long_term_memory s) with
    | (Some _, h2, l) =>
        (true, {| objects := h2; redis := db; long_term_memory := l |})
    | (None, h2, l) =>
        (false, {| objects := h2; redis := db; long_term_memory := l |})
    end
  else (true, {| objects := objects s; redis := db;
                 long_term_memory := long_term_memory s |}).

(** The two writes [add_interaction] performs, as it performs them. *)
Definition working_write (window_size : Z) (c : Redis.conn) (now_w : string)
    (session_id role content : string) (metadata : option loc) (s : t)
    : option bool :=
  (WorkingMemory.add_context window_size now_w session_id role content
     (deref (objects s) <$> metadata) c (redis s)).1.1.

Definition long_term_write (now_l : string) (session_id role content : string)
    (priority : MemoryPriority) (metadata : option loc) (s : t) : option Z :=
  let '(meta, h1) :=
    alloc (interaction_meta session_id role priority (objects s) metadata)
          (objects s) in
  (LongTermMemory.add_memory get_embedding now_l content (Some meta)
     h1 (long_term_memory s)).1.1.

(** *** [add_fact] and [clear_session] *)

(** The dictionary literal of [add_fact]. *)
Definition fact_meta (user_id : option string) (tags : option (list string))
    (p : MemoryPriority) : Py.dict :=
  <["priority" := Py.VStr (name p)]>
    (<["tags" := Py.VList (default [] tags)]>
       (<["user_id" := from_option Py.VStr Py.VNone user_id]>
          (<["type" := Py.VStr "fact"]> ∅))).

(** [MemoryManager.add_fact]; the result is [None] when the call raises
    (the [except] clause raises again). *)
Definition add_fact (now : string) (fact_text : string)
    (user_id : option string) (tags : option (list string))
    (priority : MemoryPriority) (s : t) : option Z * t :=
  let '(metadata, h1) :=
    alloc (fact_meta user_id tags priority) (objects s) in
  let '(memory_id, h2, l) :=
    LongTermMemory.add_memory get_embedding now fact_text (Some metadata)
      h1 (long_term_memory s) in
  (memory_id, {| objects := h2; redis := redis s; long_term_memory := l |}).

(** [MemoryManager.clear_session]: the value of [clear_memory] is dropped,
    and [clear_memory] raises nothing. *)
Definition clear_session (c : Redis.conn) (session_id : string) (s : t)
    : bool * t :=
  let '(_, _, db) := WorkingMemory.clear_memory session_id c (redis s) in
  (true, {| objects := objects s; redis := db;
            long_term_memory := long_term_memory s |}).

(** *** [get_agent_context] *)

(** Parameters: the floats and the index search of [search_similar];
    [str.upper]; the text an f-string puts for a metadata value and for a
    similarity under the format [.2f]. *)
Context {number : Type}.
Variable fone : number.
Variable fadd fdiv : number → number → number.
Variable search :
  @LongTermMemory.Index scalar → list scalar → Z → option (list (Z * number)).
Variable upper : string → string.
Variable format_value : Py.value → string.
Variable format_2f : number → string.

(** [x[:stop]] on a string. *)
Definition str_slice_to (stop : Z) (x : string) : string :=
  String.substring 0
    (Z.to_nat (Py.adjust stop (Z.of_nat (String.length x)))) x.

(** ["\n[... truncated ...]"] *)
Definition truncated_mark : string :=
  WorkingMemory.newline +:+ "[... truncated ...]".

(** The lines for the recent conversation. *)
Definition conversation_part (working_context : list Redis.Turn)
    : list string :=
  match working_context with
  | [] => []
  | _ => "=== Recent Conversation ==="
         :: (WorkingMemory.line_of upper <$> working_context)
  end.

(** [f"[{mem_type} | relevance: {similarity:.2f}] {text}"] *)
Definition knowledge_line (h : heap) (result : @LongTermMemory.Hit number)
    : string :=
  "[" +:+ format_value
            (LongTermMemory.type_of h (LongTermMemory.hit_memory result))
  +:+ " | relevance: "
  +:+ format_2f (LongTermMemory.similarity result)
  +:+ "] " +:+ LongTermMemory.text (LongTermMemory.hit_memory result).

(** The lines for what the long-term store knows. *)
Definition knowledge_part (retrieval_top_k : Z) (query : option string)
    (include_long_term : bool) (s : t) : list string :=
  match (if include_long_term then LongTermMemory.text_given query
         else None) with
  | Some q =>
      match LongTermMemory.search_similar get_embedding fone fadd fdiv
              search q retrieval_top_k (long_term_memory s) with
      | [] => []
      | similar_memories =>
          (WorkingMemory.newline +:+ "=== Relevant Knowledge ===")
          :: (knowledge_line (objects s) <$> similar_memories)
      end
  | None => []
  end.

(** The last step: cut to [max_chars] and mark the cut. *)
Definition truncate (max_chars : Z) (full_context : string) : string :=
  if Z.of_nat (String.length full_context) >? max_chars
  then str_slice_to max_chars full_context +:+ truncated_mark
  else full_context.

(** [MemoryManager.get_agent_context] for a manager configured with
    [retrieval_top_k] and [context_max_tokens], on the connection [c]. *)
Definition get_agent_context (retrieval_top_k context_max_tokens : Z)
    (c : Redis.conn) (session_id : string) (query : option string)
    (include_long_term : bool) (s : t) : string :=
  match (WorkingMemory.get_context session_id c (redis s)).1.1 with
  | Some working_context =>
      let context_parts :=
        conversation_part working_context
        ++ knowledge_part retrieval_top_k query include_long_term s in
      let full_context := WorkingMemory.join WorkingMemory.newline
                            context_parts in
      truncate (context_max_tokens * 4) full_context
  | None => ""
  end.

End Embedder.
End MemoryManager.

(** ** memory_summarizer.py *)

Module MemorySummarizer.

(** A [str] is a sequence of code points. *)
Definition char := N.
Definition str := list char.

(** A literal. *)
Definition lit (s : string) : str :=
  (λ a, N.of_nat (Ascii.nat_of_ascii a)) <$> String.list_ascii_of_string s.

(** [c.isspace()], the white space [str.rstrip()] and [str.strip()] remove. *)
Definition isspace (c : char) : bool :=
  ((9 <=? c) && (c <=? 13) || (28 <=? c) && (c <=? 32)
   || (c =? 133) || (c =? 160) || (c =? 5760)
   || (8192 <=? c) && (c <=? 8202)
   || (c =? 8232) || (c =? 8233) || (c =? 8239) || (c =? 8287)
   || (c =? 12288))%N.

Fixpoint lstrip (s : str) : str :=
  match s with
  | c :: rest => if isspace c then lstrip rest else s
  | [] => []
  end.

Definition rstrip (s : str) : str := reverse (lstrip (reverse s)).

Definition strip (s : str) : str := rstrip (lstrip s).

Definition len (s : str) : Z := Z.of_nat (length s).

(** [max(texts, key=len)] on [first :: rest]: the first text of greatest
    length. *)
Definition longest_of (first : str) (rest : list str) : str :=
  fold_left (λ best x, if len x >? len best then x else best) rest first.

(** ["\n"] *)
Definition newline : str := [10%N].

(** [sep.join(texts)] *)
Fixpoint join (sep : str) (texts : list str) : str :=
  match texts with
  | [] => []
  | [x] => x
  | x :: rest => x ++ sep ++ join sep rest
  end.

(** [RuleBasedSummarizer.summarize] *)
Definition rule_based (texts : list str) (max_length : Z) : str :=
  match texts with
  | [] => []
  | first :: rest =>
      let longest := longest_of first rest in
      if len longest <=? max_length then longest
      else
        let summary := rstrip (Py.slice_to max_length longest) in
        if len summary <? len longest then summary ++ lit "..." else summary
  end.

(** A backend takes the joined text and the length asked for and answers
    with a text or raises. *)
Definition backend := str → Z → option str.

(** The three strategies.  [llm_client] and [summarizer] are [None] when
    the import in [__init__] failed. *)
Inductive SummarizerStrategy :=
| RuleBasedSummarizer
| LLMSummarizer (llm_client : option backend)
| MiniLMSummarizer (summarizer : option backend).

(** [SummarizerStrategy.summarize] *)
Definition summarize (strategy : SummarizerStrategy) (texts : list str)
    (max_length : Z) : str :=
  match strategy with
  | RuleBasedSummarizer => rule_based texts max_length
  | LLMSummarizer client =>
      match texts, client with
      | [], _ | _, None => rule_based texts max_length
      | _, Some ask =>
          match ask (join newline texts) max_length with
          | Some answer => strip answer
          | None => rule_based texts max_length
          end
      end
  | MiniLMSummarizer pipeline =>
      match texts, pipeline with
      | [], _ | _, None => rule_based texts max_length
      | _, Some run =>
          let combined_text := join newline texts in
          if len combined_text <? 50 then rule_based texts max_length
          else
            match run combined_text max_length with
            | Some answer => strip answer
            | None => rule_based texts max_length
            end
      end
  end.

(** An element of [memories]: a dictionary that may have a ['text'] and an
    ['id']. *)
Record memory := {
  m_text : option str;
  m_id : option Z
}.

(** The dictionary [summarize_memories] returns; ['original_length'] is
    absent from the one returned for an empty input. *)
Record SummaryResult := {
  summary : str;
  source_count : Z;
  source_ids : list Z;
  created_at : string;
  topic : string;
  original_length : option Z
}.

(** The attributes of a [MemorySummarizer]. *)
Record t := {
  strategy : SummarizerStrategy;
  summary_history : list SummaryResult
}.

(** [[m.get('text', '') for m in memories if m.get('text')]] *)
Definition texts_of (memories : list memory) : list str :=
  omap (λ m, match m_text m with
             | Some [] | None => None
             | Some x => Some x
             end) memories.

(** A record whose ['text'] is present and not empty. *)
Definition has_text (m : memory) : bool :=
  match m_text m with
  | Some (_ :: _) => true
  | _ => false
  end.

(** [[m.get('id') for m in memories if 'id' in m]] *)
Definition ids_of (memories : list memory) : list Z := omap m_id memories.

(** [sum(len(t) for t in texts)] *)
Definition total_length (texts : list str) : Z :=
  foldr (λ x n, len x + n) 0 texts.

(** [MemorySummarizer.summarize_memories] *)
Definition summarize_memories (now : string) (memories : list memory)
    (max_length : Z) (topic : string) (s : t) : SummaryResult * t :=
  match memories with
  | [] =>
      ({| summary := []; source_count := 0; source_ids := [];
          created_at := now; topic := topic; original_length := None |}, s)
  | _ =>
      let texts := texts_of memories in
      let source_ids := ids_of memories in
      let summary := summarize (strategy s) texts max_length in
      let result := {| summary := summary;
                       source_count := Z.of_nat (length texts);
                       source_ids := source_ids;
                       created_at := now;
                       topic := topic;
                       original_length := Some (total_length texts) |} in
      (result, {| strategy := strategy s;
                  summary_history := summary_history s ++ [result] |})
  end.

(** [MemorySummarizer.get_summary_history] *)
Definition get_summary_history (limit : Z) (s : t) : list SummaryResult :=
  Py.slice_from (- limit) (summary_history s).

(** [MemorySummarizer.change_strategy] *)
Definition change_strategy (strategy' : SummarizerStrategy) (s : t) : t :=
  {| strategy := strategy'; summary_history := summary_history s |}.

End MemorySummarizer.

(** ** Sample stores and calls *)

Module Samples.
Import Heap WorkingMemory LongTermMemory.

(** A two-dimensional embedder that refuses the empty text. *)
Definition embed2 (x : string) : option (list Z) :=
  match x with "" => None | _ => Some [0; Z.of_nat (String.length x)] end.

(** A reader for the keys [json.dump] writes: decimal digits after an
    optional minus sign. *)
Definition digit (a : Ascii.ascii) : option Z :=
  let n := Z.of_nat (Ascii.nat_of_ascii a) in
  if (48 <=? n) && (n <=? 57) then Some (n - 48) else None.

Fixpoint digits (acc : Z) (x : string) : option Z :=
  match x with
  | EmptyString => Some acc
  | String a rest =>
      match digit a with
      | Some n => digits (10 * acc + n) rest
      | None => None
      end
  end.

Definition decimal (x : string) : option Z :=
  match x with
  | EmptyString => None
  | String a rest =>
      if bool_decide (a = Ascii.ascii_of_nat 45)
         && negb (bool_decide (rest = ""))
      then Z.opp <$> digits 0 rest
      else digits 0 x
  end.

(** Three calls on one session and one on another, a minute apart; the
    second runs on a connection that answers five commands. *)
Definition session_calls : list call :=
  [ {| c_wait := 0; c_conn := None; c_now := "09:00"; c_session := "s1";
       c_role := "user"; c_content := "a"; c_metadata := None |};
    {| c_wait := 60; c_conn := Some 5%nat; c_now := "09:01";
       c_session := "s1";
       c_role := "agent"; c_content := "b"; c_metadata := None |};
    {| c_wait := 60; c_conn := None; c_now := "09:02"; c_session := "s2";
       c_role := "user"; c_content := "x"; c_metadata := None |};
    {| c_wait := 60; c_conn := None; c_now := "09:03"; c_session := "s1";
       c_role := "user"; c_content := "c"; c_metadata := None |} ].

(** Two calls on one session, the second a second more than 24 hours after
    the first. *)
Definition late_calls : list call :=
  [ {| c_wait := 0; c_conn := None; c_now := "09:00"; c_session := "s1";
       c_role := "user"; c_content := "a"; c_metadata := None |};
    {| c_wait := 86401; c_conn := None; c_now := "09:00"; c_session := "s1";
       c_role := "agent"; c_content := "b"; c_metadata := None |} ].

(** Calls on a long-term store: four texts, one of them refused by the
    embedder, an update and a delete. *)
Definition store_ops : list (@op Z) :=
  [ AddMemory "t0" "alpha" None;
    NewDict {[ "type" := Py.VStr "fact" ]};
    AddMemory "t1" "beta" (Some 1%nat);
    AddMemory "t2" "" None;
    UpdateMemory "t3" 0 (Some "gamma") None;
    DeleteMemory "t4" 1;
    AddMemory "t5" "delta" (Some 1%nat) ].

(** A record whose metadata has a list as its type. *)
Definition list_typed_ops : list (@op Z) :=
  [ NewDict {[ "type" := Py.VList ["fact"; "rule"] ]};
    AddMemory "t0" "alpha" (Some 0%nat) ].

(** A store with two records, and the index of an empty store. *)
Definition two_records : heap * @t Z :=
  exec embed2 decimal
    [AddMemory "t0" "alpha" None; AddMemory "t1" "beta" None] [] (init 2).

Definition empty_index : @Index Z := {| d := 2; vectors := [] |}.

(** Two records made with one metadata dictionary, and a second
    dictionary to merge. *)
Definition shared_metadata : heap * @t Z :=
  exec embed2 decimal
    [ NewDict {[ "topic" := Py.VStr "tea" ]};
      AddMemory "t0" "alpha" (Some 0%nat);
      AddMemory "t1" "beta" (Some 0%nat);
      NewDict {[ "mood" := Py.VStr "calm" ]} ]
    [] (init 2).

(** A manager over two stored records, and a caller's dictionary at
    reference 2. *)
Definition busy_ops : list (@op Z) :=
  [ AddMemory "t0" "alpha" None;
    AddMemory "t1" "beta" None;
    NewDict {[ "type" := Py.VStr "note"; "lang" := Py.VStr "en" ]} ].

Definition busy : @MemoryManager.t Z :=
  {| MemoryManager.objects := (exec embed2 decimal busy_ops [] (init 2)).1;
     MemoryManager.redis := Redis.empty;
     MemoryManager.long_term_memory :=
       (exec embed2 decimal busy_ops [] (init 2)).2 |}.

(** A stand-in for the search of a flat index over integer vectors: the
    first [k] positions with their squared distances, refused for a
    [k] that is not positive. *)
Definition sqdist (a b : list Z) : Z :=
  foldr Z.add 0 (zip_with (λ x y, (x - y) * (x - y)) a b).

Definition scan (ix : @Index Z) (q : list Z) (k : Z)
    : option (list (Z * Z)) :=
  if k <=? 0 then None
  else Some (take (Z.to_nat k)
               (imap (λ i v, (Z.of_nat i, sqdist q v)) (vectors ix))).

(** The store the calls of [store_ops] leave. *)
Definition stocked : heap * @t Z := exec embed2 decimal store_ops [] (init 2).

(** One more record on that store, with the caller's dictionary at
    reference 1. *)
Definition restocked : option Z * heap * @t Z :=
  add_memory embed2 "t6" "eps" (Some 1%nat) stocked.1 stocked.2.

(** That store saved with keys in decimal, and read back by a new
    instance. *)
Definition saved : @Disk Z :=
  (save_index pretty NoFault stocked.1 stocked.2
     {| index_file := NotFound; map_file := NotFound |}).2.

Definition reloaded : bool * heap * @t Z :=
  load_index decimal (index_file saved) (map_file saved) [] (init 2).

(** A stand-in for the text an f-string puts for a metadata value. *)
Definition show (v : Py.value) : string :=
  match v with
  | Py.VNone => "None"
  | Py.VStr x => x
  | Py.VInt n => pretty n
  | Py.VList _ => "[...]"
  end.

(** [str.upper] on the letters a to z. *)
Definition upper_char (a : Ascii.ascii) : Ascii.ascii :=
  let n := Ascii.nat_of_ascii a in
  if ((97 <=? n) && (n <=? 122))%nat then Ascii.ascii_of_nat (n - 32) else a.

Fixpoint ascii_upper (x : string) : string :=
  match x with
  | EmptyString => EmptyString
  | String a rest => String (upper_char a) (ascii_upper rest)
  end.


(** A manager over the store of [store_ops] and the sessions of
    [session_calls], for a window of 2. *)
Definition chatty : @MemoryManager.t Z :=
  {| MemoryManager.objects := stocked.1;
     MemoryManager.redis := (run 2 session_calls Redis.empty).2;
     MemoryManager.long_term_memory := stocked.2 |}.

End Samples.

(** * Properties *)

(** ** Slices *)

Module PyFacts.
Import Py.

Lemma slice_from_window {A} (n : Z) (l : list A) :
  1 ≤ n → n < Z.of_nat (length l) →
  slice_from (- n) l = last_n (Z.to_nat n) l.
Proof.
  intros Hn Hl. unfold slice_from, last_n, adjust.
  destruct (Z.ltb_spec (- n) 0) as [_|?]; [|lia].
  f_equal. lia.
Qed.

Lemma last_n_short {A} (k : nat) (l : list A) :
  (length l ≤ k)%nat → last_n k l = l.
Proof.
  intros Hk. unfold last_n.
  replace (length l - k)%nat with 0%nat by lia. apply drop_0.
Qed.

Lemma length_last_n {A} (k : nat) (l : list A) :
  length (last_n k l) = Nat.min k (length l).
Proof. unfold last_n. rewrite length_drop. lia. Qed.

Lemma last_n_app_last_n {A} (k : nat) (l1 l2 : list A) :
  last_n k (last_n k l1 ++ l2) = last_n k (l1 ++ l2).
Proof.
  unfold last_n.
  rewrite !drop_app, drop_drop, !length_app, !length_drop.
  f_equal; f_equal; lia.
Qed.

Lemma slice_to_nonneg {A} (n : Z) (l : list A) :
  0 ≤ n → slice_to n l = take (Z.to_nat n) l.
Proof.
  intros Hn. unfold slice_to, adjust.
  destruct (Z.ltb_spec n 0) as [?|_]; [lia|].
  destruct (Z.le_gt_cases n (Z.of_nat (length l))).
  - f_equal. lia.
  - rewrite !take_ge by lia. done.
Qed.

End PyFacts.

(** ** Working memory *)

Module WorkingMemoryFacts.
Import Redis WorkingMemory Samples.

Lemma command_inv {A} (f : db → A * db) c s a c' s' :
  command f c s = (Some a, c', s') → f s = (a, s').
Proof.
  unfold command. destruct c as [[|k]|]; [done| |];
    destruct (f s) as [a0 s0]; intros [= <- _ <-]; done.
Qed.

Lemma bind_inv {A B} (m : M A) (k : A → M B) c s b c' s' :
  bind m k c s = (Some b, c', s') →
  ∃ a c1 s1, m c s = (Some a, c1, s1) ∧ k a c1 s1 = (Some b, c', s').
Proof.
  unfold bind. destruct (m c s) as [[[a|] c1] s1]; [eauto|done].
Qed.

Lemma key_of_inj a b : key_of a = key_of b → a = b.
Proof. unfold key_of. simpl. by intros [=]. Qed.

(** A loop of [rpush] that runs to its end appends the items, in order, to
    the list under [key] and touches nothing else. *)
Lemma for_each_rpush key items c s u c' s' :
  for_each items (rpush key) c s = (Some u, c', s') →
  stored s' key = stored s key ++ items
  ∧ (∀ k, k ≠ key → lists s' !! k = lists s !! k).
Proof.
  revert c s. induction items as [|x items IH]; intros c s H.
  - injection H as _ _ <-. by rewrite app_nil_r.
  - simpl in H. apply bind_inv in H as (? & c1 & s1 & H1 & H2).
    apply command_inv in H1. injection H1 as <- <-.
    apply IH in H2 as [-> Hk]. split.
    + unfold stored at 1. simpl. rewrite lookup_insert_eq. simpl.
      by rewrite <- app_assoc.
    + intros k Hne. rewrite Hk by done. simpl. by rewrite lookup_insert_ne.
Qed.

Lemma window_last_n n l :
  1 ≤ n → window n l = Py.last_n (Z.to_nat n) l.
Proof.
  intros Hn. unfold window.
  destruct (Z.gtb_spec (Z.of_nat (length l)) n).
  - by apply PyFacts.slice_from_window.
  - symmetry. apply PyFacts.last_n_short. lia.
Qed.

(** A call that returns [True] has run every command.  [s1] is the store
    before the last of them, [expire]: the session's list is the old one
    with the new turn, cut by [window], and no other key has moved. *)
Lemma add_context_inv n now sid r x md c s c' s' :
  add_context n now sid r x md c s = (Some true, c', s') →
  ∃ s1,
    stored s1 (key_of sid)
    = window n (stored s (key_of sid)
                ++ [{| role := r; content := x; timestamp := now;
                       metadata := or_empty md |}])
    ∧ (∀ k, k ≠ key_of sid → lists s1 !! k = lists s !! k)
    ∧ s' = match lists s1 !! key_of sid with
           | Some _ => {| lists := lists s1;
                          ttl := <[key_of sid := 86400]> (ttl s1) |}
           | None => s1
           end.
Proof.
  unfold add_context, try. fold (window n).
  match goal with |- context [?body c s] =>
    destruct (body c s) as [[[b|] c1] s1] eqn:Hbody end; [|done].
  intros [= -> -> ->].
  unfold mbind, client_bind in Hbody.
  apply bind_inv in Hbody as (existing & c2 & s2 & Hl & Hbody).
  apply command_inv in Hl. injection Hl as <- <-.
  apply bind_inv in Hbody as (? & c3 & s3 & Hd & Hbody).
  apply command_inv in Hd. injection Hd as <- <-.
  apply bind_inv in Hbody as (? & c4 & s4 & Hp & Hbody).
  apply for_each_rpush in Hp as [Hp Hk].
  apply bind_inv in Hbody as (? & c5 & s5 & He & Hbody).
  apply command_inv in He. injection He as <- <-.
  injection Hbody as _ <-.
  exists s4. split; [|split; [|done]].
  - rewrite Hp. unfold stored at 1. simpl. by rewrite lookup_delete_eq.
  - intros k Hne. rewrite Hk by done. simpl. by rewrite lookup_delete_ne.
Qed.

Lemma add_context_true n now sid r x md c s c' s' :
  add_context n now sid r x md c s = (Some true, c', s') →
  stored s' (key_of sid)
  = window n (stored s (key_of sid)
              ++ [{| role := r; content := x; timestamp := now;
                     metadata := or_empty md |}])
  ∧ (∀ k, k ≠ key_of sid → lists s' !! k = lists s !! k).
Proof.
  intros (s1 & Hw & Hk & ->)%add_context_inv.
  assert (∀ k, lists (match lists s1 !! key_of sid with
                      | Some _ => {| lists := lists s1;
                                     ttl := <[key_of sid := 86400]> (ttl s1) |}
                      | None => s1
                      end) !! k = lists s1 !! k) as Hsame
    by (intros k; by destruct (lists s1 !! key_of sid)).
  split.
  - unfold stored at 1. rewrite Hsame. exact Hw.
  - intros k Hne. by rewrite Hsame, Hk.
Qed.

(** With a window of at least 1, a call that returns [True] has set the
    session's time-to-live to 24 hours. *)
Lemma add_context_ttl n now sid r x md c s c' s' :
  1 ≤ n →
  add_context n now sid r x md c s = (Some true, c', s') →
  ttl s' !! key_of sid = Some 86400.
Proof.
  intros Hn (s1 & Hw & _ & ->)%add_context_inv.
  rewrite window_last_n in Hw by done.
  apply (f_equal length) in Hw.
  rewrite PyFacts.length_last_n, length_app in Hw. simpl in Hw.
  unfold stored in Hw at 1. destruct (lists s1 !! key_of sid) as [l|].
  - simpl. by rewrite lookup_insert_eq.
  - simpl in Hw. lia.
Qed.

(** [add_context] catches what its body raises: it always returns a
    boolean. *)
Lemma add_context_returns n now sid r x md c s :
  ∃ b, (add_context n now sid r x md c s).1.1 = Some b.
Proof.
  unfold add_context, try.
  match goal with |- context [?body c s] =>
    destruct (body c s) as [[[b|] c1] s1] end; simpl; eauto.
Qed.

(** On a connection that does not drop the call returns [True]. *)
Lemma for_each_rpush_up key items s :
  ∃ s', for_each items (rpush key) None s = (Some tt, None, s').
Proof.
  revert s. induction items as [|x items IH]; intros s; simpl; [by eexists|].
  unfold bind, rpush, command. apply IH.
Qed.

Lemma add_context_up n now sid r x md s :
  (add_context n now sid r x md None s).1.1 = Some true.
Proof.
  unfold add_context, try, mbind, client_bind, bind, lrange, delete,
    expire, command at 1 2.
  match goal with |- context [for_each ?l ?f None ?s0] =>
    destruct (for_each_rpush_up (key_of sid) l s0) as [s' ->] end.
  done.
Qed.

Lemma read_stored sid s : read sid s = stored s (key_of sid).
Proof. done. Qed.

(** *** The passing of time *)

Lemma stored_elapse dt s key :
  stored (elapse dt s) key
  = if outlives dt (ttl s !! key) then stored s key else [].
Proof.
  unfold stored, elapse. cbn [lists].
  destruct (outlives dt (ttl s !! key)) eqn:E.
  - destruct (lists s !! key) as [l|] eqn:El.
    + by rewrite (proj2 (map_lookup_filter_Some _ _ key l)).
    + rewrite (proj2 (map_lookup_filter_None _ _ key)); [done|]. by left.
  - rewrite (proj2 (map_lookup_filter_None _ _ key)); [done|].
    right. intros l _. simpl. by rewrite E.
Qed.

Lemma ttl_elapse dt s key :
  ttl (elapse dt s) !! key
  = ttl s !! key
    ≫= λ t, if Z.of_N dt <=? t then Some (t - Z.of_N dt) else None.
Proof. unfold elapse. simpl. apply lookup_omap. Qed.

(** What [kept] does for the seconds before a call, on the store. *)
Lemma elapse_kept (k : nat) dt s key (acc : list Turn) (age : N) :
  stored s key = Py.last_n k acc →
  (acc ≠ [] → ttl s !! key = Some (Z.of_N day - Z.of_N age) ∧ (age ≤ day)%N) →
  stored (elapse dt s) key
  = Py.last_n k (if (day <? age + dt)%N then [] else acc)
  ∧ ((if (day <? age + dt)%N then [] else acc) ≠ [] →
     ttl (elapse dt s) !! key = Some (Z.of_N day - Z.of_N (age + dt))
     ∧ (age + dt ≤ day)%N).
Proof.
  intros Hs Ht. rewrite stored_elapse, ttl_elapse.
  destruct acc as [|t acc].
  - rewrite Hs. split; [by destruct (_ <? _)%N, (outlives _ _)|].
    by destruct (_ <? _)%N.
  - destruct (Ht ltac:(done)) as [-> Hage].
    unfold outlives. cbn [mbind option_bind].
    destruct (N.ltb_spec day (age + dt)) as [Hlt|Hle];
      destruct (Z.leb_spec (Z.of_N dt) (Z.of_N day - Z.of_N age));
      try lia.
    + by split.
    + split; [done|]. intros _. split; [f_equal; lia|done].
Qed.

(** *** Writes stay within the session's key *)

Lemma touches_only_ret {A} key (a : A) : touches_only key (ret a).
Proof. by intros c s k Hk. Qed.

Lemma touches_only_bind {A B} key (m : M A) (f : A → M B) :
  touches_only key m → (∀ a, touches_only key (f a)) →
  touches_only key (bind m f).
Proof.
  intros Hm Hf c s k Hk. unfold bind. destruct (Hm c s k Hk) as [H1 H2].
  destruct (m c s) as [[[a|] c'] s']; simpl in *; [|done].
  destruct (Hf a c' s' k Hk) as [H3 H4]. split; congruence.
Qed.

Lemma touches_only_try {A} key (m h : M A) :
  touches_only key m → touches_only key h → touches_only key (try m h).
Proof.
  intros Hm Hh c s k Hk. unfold try. destruct (Hm c s k Hk) as [H1 H2].
  destruct (m c s) as [[[a|] c'] s']; simpl in *; [done|].
  destruct (Hh c' s' k Hk) as [H3 H4]. split; congruence.
Qed.

Lemma touches_only_lrange key : touches_only key (lrange key).
Proof. intros c s k Hk. by destruct c as [[|j]|]. Qed.

Lemma touches_only_delete key : touches_only key (delete key).
Proof.
  intros c s k Hk. destruct c as [[|j]|]; simpl; try done;
    by rewrite !lookup_delete_ne.
Qed.

Lemma touches_only_rpush key x : touches_only key (rpush key x).
Proof.
  intros c s k Hk. destruct c as [[|j]|]; simpl; try done;
    by rewrite lookup_insert_ne.
Qed.

Lemma touches_only_expire key seconds : touches_only key (expire key seconds).
Proof.
  intros c s k Hk. unfold expire, command.
  destruct c as [[|j]|]; simpl; try done;
    destruct (lists s !! key); simpl; try done; by rewrite lookup_insert_ne.
Qed.

Lemma touches_only_for_each {A} key (items : list A) (body : A → M unit) :
  (∀ x, touches_only key (body x)) → touches_only key (for_each items body).
Proof.
  intros Hb. induction items as [|x items IH]; simpl.
  - apply touches_only_ret.
  - apply touches_only_bind; [apply Hb|]. by intros _.
Qed.

(** [add_context] writes nothing but the entry of its session, whatever
    becomes of the connection. *)
Lemma touches_only_add_context n now sid r x md :
  touches_only (key_of sid) (add_context n now sid r x md).
Proof.
  unfold add_context, mbind, client_bind, mret, client_ret.
  apply touches_only_try; [|apply touches_only_ret].
  apply touches_only_bind; [apply touches_only_lrange|]. intros existing.
  apply touches_only_bind; [apply touches_only_delete|]. intros _.
  apply touches_only_bind.
  { apply touches_only_for_each. intros t. apply touches_only_rpush. }
  intros _. apply touches_only_bind; [apply touches_only_expire|].
  intros _. apply touches_only_ret.
Qed.

(** *** Sequences of calls *)

Lemma run_call_true n c s s' :
  run_call n c s = (true, s') →
  ∃ c', add_context n (c_now c) (c_session c) (c_role c) (c_content c)
          (c_metadata c) (c_conn c) (elapse (c_wait c) s)
        = (Some true, c', s').
Proof.
  unfold run_call.
  destruct (add_context _ _ _ _ _ _ _ _) as [[[b|] c1] s1] eqn:H; [|done].
  intros [= -> ->]. by exists c1.
Qed.

(** After calls that all returned [True], a session holds the last
    [window_size] of the turns [kept] lists, and its time-to-live is what
    is left of the day since the last of them. *)
Lemma run_kept n cs s sid (acc : list Turn) (age : N) :
  1 ≤ n →
  Forall (λ b, b = true) (run n cs s).1 →
  stored s (key_of sid) = Py.last_n (Z.to_nat n) acc →
  (acc ≠ [] →
   ttl s !! key_of sid = Some (Z.of_N day - Z.of_N age) ∧ (age ≤ day)%N) →
  stored (run n cs s).2 (key_of sid)
  = Py.last_n (Z.to_nat n) (kept sid cs acc age).1
  ∧ ((kept sid cs acc age).1 ≠ [] →
     ttl (run n cs s).2 !! key_of sid
     = Some (Z.of_N day - Z.of_N (kept sid cs acc age).2)
     ∧ ((kept sid cs acc age).2 ≤ day)%N).
Proof.
  intros Hn. revert s acc age.
  induction cs as [|c cs IH]; intros s acc age Hall Hs Ht; [done|].
  simpl in Hall. destruct (run_call n c s) as [b s1] eqn:Hc.
  specialize (IH s1). cbn [run kept]. rewrite Hc.
  destruct (run n cs s1) as [bs s2] eqn:Hr. simpl in Hall, IH |- *.
  apply Forall_cons in Hall as [-> Hall].
  apply run_call_true in Hc as [c1 Hc].
  destruct (elapse_kept (Z.to_nat n) (c_wait c) s (key_of sid) acc age Hs Ht)
    as [Hs0 Ht0].
  set (acc' := if (day <? age + c_wait c)%N then [] else acc) in *.
  destruct (decide (c_session c = sid)) as [<-|Hne].
  - apply IH; [done| |].
    + apply add_context_true in Hc as [-> _].
      rewrite window_last_n, Hs0 by done.
      apply PyFacts.last_n_app_last_n.
    + intros _. apply add_context_ttl in Hc as ->; [|done].
      split; [done|]. by compute.
  - assert (key_of sid ≠ key_of (c_session c)) as Hk
      by (intros E; by apply key_of_inj in E).
    pose proof (touches_only_add_context n (c_now c) (c_session c) (c_role c)
                  (c_content c) (c_metadata c) (c_conn c)
                  (elapse (c_wait c) s) (key_of sid) Hk) as [Hl Htt].
    rewrite Hc in Hl, Htt. simpl in Hl, Htt.
    apply IH; [done| |].
    + unfold stored in *. by rewrite Hl.
    + by rewrite Htt.
Qed.

(** Within a day nothing expires. *)
Lemma kept_within sid cs (acc : list Turn) (age : N) :
  (age + duration cs ≤ day)%N →
  (kept sid cs acc age).1 = acc ++ turns_for sid cs
  ∧ ((kept sid cs acc age).2 ≤ age + duration cs)%N.
Proof.
  revert acc age. induction cs as [|c cs IH]; intros acc age Hd.
  - simpl in *. rewrite app_nil_r. split; [done|lia].
  - cbn [kept duration foldr] in *. fold (duration cs) in *.
    destruct (N.ltb_spec day (age + c_wait c)) as [?|_]; [lia|].
    unfold turns_for. rewrite filter_cons.
    destruct (decide (c_session c = sid)) as [E|E].
    + destruct (IH (acc ++ [turn_of c]) 0%N ltac:(lia)) as [-> H].
      rewrite fmap_cons, <- app_assoc. split; [done|lia].
    + destruct (IH acc (age + c_wait c)%N ltac:(lia)) as [-> H].
      split; [done|lia].
Qed.

(** C4, as amended.  For a window size of at least 1: after any sequence of
    [add_context] calls, on any sessions and any time apart, that all
    returned [True], [get_context] on a reachable store returns at most
    [window_size] turns for a session, and they are the last [window_size]
    of the turns written to that session since it last went more than 24
    hours without a write (all of those when there are fewer), oldest
    first.  When the calls and the reading span no more than 24 hours,
    these are the last [window_size] turns written to the session. *)
Theorem window_bound (n : Z) (cs : list call) (sid : string) (w : N) :
  1 ≤ n →
  Forall (λ b, b = true) (run n cs Redis.empty).1 →
  Z.of_nat (length (read sid (elapse w (run n cs Redis.empty).2))) ≤ n
  ∧ read sid (elapse w (run n cs Redis.empty).2)
    = Py.last_n (Z.to_nat n) (survivors sid cs w)
  ∧ ((duration cs + w ≤ day)%N →
     read sid (elapse w (run n cs Redis.empty).2)
     = Py.last_n (Z.to_nat n) (turns_for sid cs)).
Proof.
  intros Hn Hall.
  destruct (run_kept n cs Redis.empty sid [] 0%N Hn Hall) as [Hs Ht];
    [by unfold stored; simpl; rewrite lookup_empty|done|].
  destruct (elapse_kept (Z.to_nat n) w (run n cs Redis.empty).2 (key_of sid)
              _ _ Hs Ht) as [Hr _].
  rewrite read_stored, Hr. fold (survivors sid cs w).
  split; [rewrite PyFacts.length_last_n; lia|]. split; [done|].
  intros Hd. unfold survivors.
  destruct (kept_within sid cs [] 0%N ltac:(lia)) as [-> Hage].
  by destruct (N.ltb_spec day ((kept sid cs [] 0).2 + w)) as [?|_]; [lia|].
Qed.

Lemma window_bound_witness :
  Z.of_nat (length (read "s1" (elapse 60 (run 2 session_calls Redis.empty).2)))
  ≤ 2
  ∧ read "s1" (elapse 60 (run 2 session_calls Redis.empty).2)
    = Py.last_n 2 (survivors "s1" session_calls 60)
  ∧ ((duration session_calls + 60 ≤ day)%N →
     read "s1" (elapse 60 (run 2 session_calls Redis.empty).2)
     = Py.last_n 2 (turns_for "s1" session_calls)).
Proof.
  apply (window_bound 2 session_calls "s1" 60); [lia|].
  vm_compute. repeat constructor.
Defined.

(** C4 as stated fails when a session goes more than 24 hours without a
    write: [add_context] sets the entry to expire after
    [timedelta(hours=24)], so of two successful calls a second more than a
    day apart only the second turn is returned, where the claim, for a
    window of 2, promises both. *)
Lemma window_bound_after_a_day :
  Forall (λ b, b = true) (run 2 late_calls Redis.empty).1
  ∧ length (turns_for "s1" late_calls) = 2%nat
  ∧ read "s1" (run 2 late_calls Redis.empty).2
    = drop 1 (turns_for "s1" late_calls)
  ∧ read "s1" (run 2 late_calls Redis.empty).2
    ≠ Py.last_n 2 (turns_for "s1" late_calls).
Proof.
  split; [|split; [|split]].
  - vm_compute. repeat constructor.
  - by vm_compute.
  - by vm_compute.
  - vm_compute. intros H. discriminate H.
Qed.

(** A window size of 0 evicts nothing: [existing_list[-0:]] is the whole
    list.  Two successful calls leave two turns. *)
Lemma window_bound_zero_window :
  Forall (λ b, b = true) (run 0 (take 2 session_calls) Redis.empty).1
  ∧ read "s1" (run 0 (take 2 session_calls) Redis.empty).2
    = turns_for "s1" (take 2 session_calls)
  ∧ length (read "s1" (run 0 (take 2 session_calls) Redis.empty).2) = 2%nat
  ∧ ¬ (Z.of_nat (length (read "s1"
                           (run 0 (take 2 session_calls) Redis.empty).2))
       ≤ 0).
Proof.
  split; [|split; [|split]].
  - vm_compute. repeat constructor.
  - by vm_compute.
  - by vm_compute.
  - vm_compute. intros H. by apply H.
Qed.

(** *** The other operations *)

Lemma key_of_clear_key_of a b : key_of a ≠ clear_key_of b.
Proof. unfold key_of, clear_key_of. simpl. by intros [=]. Qed.


Lemma for_each_rpush_step key x items c s :
  c ≠ Some 0%nat →
  for_each (x :: items) (rpush key) c s
  = for_each items (rpush key) (pred <$> c)
      {| lists := <[key := stored s key ++ [x]]> (lists s); ttl := ttl s |}.
Proof. by destruct c as [[|j]|]. Qed.

(** A loop of [rpush] on a connection that answers [j] commands: it ends
    when [j] covers the items, and stops after [j] of them otherwise. *)
Lemma for_each_rpush_budget key items j s :
  stored (for_each items (rpush key) (Some j) s).2 key
  = stored s key ++ take j items
  ∧ (∀ k, k ≠ key →
       lists (for_each items (rpush key) (Some j) s).2 !! k = lists s !! k)
  ∧ (for_each items (rpush key) (Some j) s).1
    = (if (length items <=? j)%nat then Some tt else None,
       Some (j - length items)%nat).
Proof.
  revert j s. induction items as [|x items IH]; intros j s.
  - simpl. rewrite take_nil, app_nil_r. repeat split.
    by rewrite Nat.sub_0_r.
  - destruct j as [|j].
    + simpl. by rewrite app_nil_r.
    + rewrite for_each_rpush_step by done. simpl.
      destruct (IH j {| lists := <[key := stored s key ++ [x]]> (lists s);
                        ttl := ttl s |}) as (Hs & Hk & Hr).
      split; [|split].
      * rewrite Hs. unfold stored at 1. simpl.
        rewrite lookup_insert_eq. simpl. by rewrite <- app_assoc.
      * intros k Hne. rewrite Hk by done. simpl.
        by rewrite lookup_insert_ne.
      * exact Hr.
Qed.

Lemma for_each_rpush_unbounded key items s :
  stored (for_each items (rpush key) None s).2 key = stored s key ++ items
  ∧ (∀ k, k ≠ key →
       lists (for_each items (rpush key) None s).2 !! k = lists s !! k)
  ∧ (for_each items (rpush key) None s).1 = (Some tt, None).
Proof.
  revert s. induction items as [|x items IH]; intros s.
  - simpl. by rewrite app_nil_r.
  - rewrite for_each_rpush_step by done. simpl.
    destruct (IH {| lists := <[key := stored s key ++ [x]]> (lists s);
                    ttl := ttl s |}) as (Hs & Hk & Hr).
    split; [|split].
    + rewrite Hs. unfold stored at 1. simpl.
      rewrite lookup_insert_eq. simpl. by rewrite <- app_assoc.
    + intros k Hne. rewrite Hk by done. simpl. by rewrite lookup_insert_ne.
    + exact Hr.
Qed.

(** [add_context] with the list it writes back named. *)
Lemma add_context_window n now sid r x md :
  add_context n now sid r x md
  = try
      (bind (lrange (key_of sid)) (λ existing,
       bind (delete (key_of sid)) (λ _,
       bind (for_each
               (window n (existing
                          ++ [{| role := r; content := x; timestamp := now;
                                 metadata := or_empty md |}]))
               (rpush (key_of sid))) (λ _,
       bind (expire (key_of sid) 86400) (λ _, ret true)))))
      (ret false).
Proof. reflexivity. Qed.

Lemma expire_lists key seconds c s :
  lists (expire key seconds c s).2 = lists (s).
Proof.
  unfold expire, command.
  destruct c as [[|j]|]; simpl; try done; by destruct (lists s !! key).
Qed.

(** Past [lrange] and [delete], a call is the loop of [rpush] from the
    emptied key followed by [expire]. *)
Lemma add_context_past_delete n now sid r x md c s :
  c ≠ Some 0%nat → c ≠ Some 1%nat →
  add_context n now sid r x md c s
  = let res :=
      for_each
        (window n (stored s (key_of sid)
                   ++ [{| role := r; content := x; timestamp := now;
                          metadata := or_empty md |}]))
        (rpush (key_of sid)) (pred <$> (pred <$> c))
        {| lists := base.delete (key_of sid) (lists s);
           ttl := base.delete (key_of sid) (ttl s) |} in
    match res.1.1 with
    | Some _ =>
        (Some (bool_decide (res.1.2 ≠ Some 0%nat)),
         (expire (key_of sid) 86400 res.1.2 res.2).1.2,
         (expire (key_of sid) 86400 res.1.2 res.2).2)
    | None => (Some false, res.1.2, res.2)
    end.
Proof.
  intros H0 H1. rewrite add_context_window.
  destruct c as [[|[|j]]|]; [done..| |];
    unfold try, bind, lrange, delete, command at 1 2; simpl;
    match goal with |- context [for_each ?l ?f ?c ?s0] =>
      destruct (for_each l f c s0) as [[[u|] [[|k]|]] s1] end; done.
Qed.

(** What [add_context] leaves under the session's key and what it
    returns, by the number of commands the connection answers. *)
Lemma add_context_written (n : Z) (now sid r x : string)
    (md : option Py.dict) (c : conn) (s : db) :
  let old := stored s (key_of sid) in
  let new := {| role := r; content := x; timestamp := now;
                metadata := or_empty md |} in
  stored (add_context n now sid r x md c s).2 (key_of sid)
  = written n old new c
  ∧ (∀ k, k ≠ key_of sid →
       lists (add_context n now sid r x md c s).2 !! k = lists s !! k)
  ∧ (add_context n now sid r x md c s).1.1
    = Some (match c with
            | None => true
            | Some j => (commands n old new <=? j)%nat
            end).
Proof.
  intros old new. unfold commands, written.
  set (sd := {| lists := base.delete (key_of sid) (lists s);
                ttl := base.delete (key_of sid) (ttl s) |}).
  assert (stored sd (key_of sid) = []) as Hsd
    by (unfold stored; simpl; by rewrite lookup_delete_eq).
  assert (∀ k, k ≠ key_of sid → lists sd !! k = lists s !! k) as Hkd
    by (intros k Hk; simpl; by rewrite lookup_delete_ne).
  destruct c as [[|[|j]]|].
  - rewrite add_context_window. cbn -[window].
    by rewrite (proj2 (Nat.leb_gt _ _)) by lia.
  - rewrite add_context_window. cbn -[window].
    by rewrite (proj2 (Nat.leb_gt _ _)) by lia.
  - rewrite add_context_past_delete by done.
    fold new. fold old. fold sd. set (L := window n (old ++ [new])).
    cbn [fmap option_fmap option_map pred].
    destruct (for_each_rpush_budget (key_of sid) L j sd) as (Hs & Hk & Hr).
    destruct (for_each L (rpush (key_of sid)) (Some j) sd) as [[o c1] s1].
    cbn [fst snd] in *. injection Hr as -> ->.
    rewrite Hsd in Hs. simpl in Hs.
    change (S (S j) <? 2)%nat with false.
    replace (S (S j) - 2)%nat with j by lia.
    destruct (Nat.leb_spec (length L) j) as [Hle|Hgt]; cbn [fst snd].
    + unfold stored at 1. rewrite expire_lists. fold (stored s1 (key_of sid)).
      rewrite Hs, take_ge by done.
      split; [done|].
      split; [intros k Hne; by rewrite ?expire_lists, Hk, Hkd|].
      f_equal. symmetry. case_bool_decide as Hd.
      * apply Nat.leb_le.
        assert (j - length L ≠ 0)%nat by congruence. lia.
      * apply Nat.leb_gt.
        assert (j - length L = 0)%nat by congruence. lia.
    + split; [done|]. split; [intros k Hne; by rewrite Hk, Hkd|].
      by rewrite (proj2 (Nat.leb_gt _ _)) by lia.
  - rewrite add_context_past_delete by done.
    fold new. fold old. fold sd. set (L := window n (old ++ [new])).
    cbn [fmap option_fmap option_map pred].
    destruct (for_each_rpush_unbounded (key_of sid) L sd) as (Hs & Hk & Hr).
    destruct (for_each L (rpush (key_of sid)) None sd) as [[o c1] s1].
    cbn [fst snd] in *. injection Hr as -> ->.
    rewrite Hsd in Hs. simpl in Hs. cbn [fst snd].
    unfold stored at 1. rewrite expire_lists. fold (stored s1 (key_of sid)).
    split; [done|]. split; [|done].
    intros k Hne. by rewrite ?expire_lists, Hk, Hkd.
Qed.

(** X2.  [add_context] on a connection that may drop.  The list left under
    the session's key is [written]: the old list when the connection drops
    before [delete] is answered, and otherwise the turns of the new window
    pushed before the drop (none of them, so an empty session, when it
    drops right after [delete]).  No other key moves: its list and its
    time-to-live are what they were.  The call returns [True] exactly when
    the connection answers all its commands, so a drop at the last one,
    [expire], returns [False] with the whole window written. *)
Theorem add_context_outcome (n : Z) (now sid r x : string)
    (md : option Py.dict) (c : conn) (s : db) :
  let old := stored s (key_of sid) in
  let new := {| role := r; content := x; timestamp := now;
                metadata := or_empty md |} in
  stored (add_context n now sid r x md c s).2 (key_of sid)
  = written n old new c
  ∧ (∀ k, k ≠ key_of sid →
       lists (add_context n now sid r x md c s).2 !! k = lists s !! k
       ∧ ttl (add_context n now sid r x md c s).2 !! k = ttl s !! k)
  ∧ (add_context n now sid r x md c s).1.1
    = Some (match c with
            | None => true
            | Some j => (commands n old new <=? j)%nat
            end).
Proof.
  intros old new.
  destruct (add_context_written n now sid r x md c s) as (Hw & _ & Hr).
  split; [done|]. split; [|done].
  intros k Hk. by apply touches_only_add_context.
Qed.




(** What [get_context] hands to its callers: the stored list, or nothing
    when the store does not answer.  The store is not changed. *)
Lemma get_context_value sid c s :
  get_context sid c s
  = (Some (if bool_decide (c = Some 0%nat) then [] else stored s (key_of sid)),
     pred <$> c, s).
Proof. by destruct c as [[|j]|]. Qed.

Lemma count_role_split (a b : string) (l : list Turn) :
  a ≠ b →
  count_role a l + count_role b l ≤ Z.of_nat (length l)
  ∧ (count_role a l + count_role b l = Z.of_nat (length l)
     ↔ Forall (λ t, role t = a ∨ role t = b) l).
Proof.
  intros Hab. unfold count_role.
  induction l as [|t l [IH1 IH2]]; [by split|].
  rewrite !filter_cons, Forall_cons.
  pose proof (length_filter (λ t, role t = a) l).
  pose proof (length_filter (λ t, role t = b) l).
  destruct (decide (role t = a)) as [Ea|Ea];
    destruct (decide (role t = b)) as [Eb|Eb]; cbn [length];
    try congruence; (split; [lia|]); rewrite <- IH2.
  - split; [intros; split; [by left|lia]|intros [_ ?]; lia].
  - split; [intros; split; [by right|lia]|intros [_ ?]; lia].
  - split; [lia|]. by intros [[?|?] _].
Qed.

(** X4.  [get_session_stats] never fails and never writes.  It counts the
    turns [get_context] returns, so all three counts are 0 when the store
    does not answer: [num_turns] is their number, [user_turns] the number
    of those whose role is ["user"] and [agent_turns] the number of those
    whose role is ["agent"], compared verbatim.  The two counts add up to
    at most [num_turns], and to exactly [num_turns] only when every stored
    role is one of the two. *)
Theorem session_stats_counts (sid : string) (c : conn) (s : db) :
  ∃ st,
    get_session_stats sid c s = (Some st, pred <$> c, s)
    ∧ stats_session_id st = sid
    ∧ num_turns st
      = (if bool_decide (c = Some 0%nat) then 0
         else Z.of_nat (length (stored s (key_of sid))))
    ∧ user_turns st
      = (if bool_decide (c = Some 0%nat) then 0
         else Z.of_nat (length (filter (λ t, role t = "user")
                                  (stored s (key_of sid)))))
    ∧ agent_turns st
      = (if bool_decide (c = Some 0%nat) then 0
         else Z.of_nat (length (filter (λ t, role t = "agent")
                                  (stored s (key_of sid)))))
    ∧ user_turns st + agent_turns st ≤ num_turns st
    ∧ (c ≠ Some 0%nat →
       (user_turns st + agent_turns st = num_turns st
        ↔ Forall (λ t, role t = "user" ∨ role t = "agent")
                 (stored s (key_of sid)))).
Proof.
  unfold get_session_stats, mbind, client_bind, bind.
  rewrite get_context_value. eexists. split; [reflexivity|]. simpl.
  split; [done|].
  assert ("user" ≠ "agent") as Hne by done.
  case_bool_decide as Hc.
  - repeat (split; [done|]). done.
  - destruct (count_role_split "user" "agent" (stored s (key_of sid)) Hne)
      as [Hle Hiff].
    split; [done|]. unfold count_role in *.
    repeat (split; [done|]). done.
Qed.

Lemma append_nil_r (a b : string) : a +:+ b = "" → b = "".
Proof. destruct a; [done|]. by intros [=]. Qed.

Lemma join_nil sep (lines : list string) :
  Forall (λ x, x ≠ "") lines → join sep lines = "" → lines = [].
Proof.
  destruct lines as [|x [|y rest]]; [done| |].
  - intros [Hx _]%Forall_cons E. by destruct Hx.
  - intros [Hx _]%Forall_cons E. simpl in E.
    destruct x; [by destruct Hx|]. simpl in E. discriminate E.
Qed.

Section Upper.

Variable upper : string → string.

Lemma line_of_nonempty (t : Turn) : line_of upper t ≠ "".
Proof.
  unfold line_of. intros E. apply append_nil_r in E. discriminate E.
Qed.

(** X5.  [get_context_text] after calls that all returned [True], for a
    window of at least 1, on a store that answers: one line
    ["ROLE: content"] per turn of the window, oldest first, joined by line
    breaks, the window being the last [window_size] of the turns written to
    the session since it last went more than 24 hours without a write; the
    empty string exactly when no such turn is left.  When the calls and the
    reading span no more than 24 hours these are the last [window_size]
    turns written to the session.  When the store does not answer the text
    is empty. *)
Theorem context_text_after_run (n : Z) (cs : list call) (sid : string)
    (w : N) :
  1 ≤ n →
  Forall (λ b, b = true) (run n cs Redis.empty).1 →
  (get_context_text upper sid None (elapse w (run n cs Redis.empty).2)).1.1
  = Some (join newline
            (line_of upper <$> Py.last_n (Z.to_nat n) (survivors sid cs w)))
  ∧ ((get_context_text upper sid None
        (elapse w (run n cs Redis.empty).2)).1.1 = Some ""
     ↔ survivors sid cs w = [])
  ∧ ((duration cs + w ≤ day)%N → survivors sid cs w = turns_for sid cs)
  ∧ (get_context_text upper sid (Some 0%nat)
       (elapse w (run n cs Redis.empty).2)).1.1
    = Some "".
Proof.
  intros Hn Hall.
  destruct (run_kept n cs Redis.empty sid [] 0%N Hn Hall) as [Hs Ht];
    [by unfold stored; simpl; rewrite lookup_empty|done|].
  destruct (elapse_kept (Z.to_nat n) w (run n cs Redis.empty).2 (key_of sid)
              _ _ Hs Ht) as [H _].
  fold (survivors sid cs w) in H.
  unfold get_context_text, mbind, client_bind, bind.
  rewrite !get_context_value. rewrite H. simpl.
  set (W := Py.last_n (Z.to_nat n) (survivors sid cs w)).
  assert (W = [] ↔ survivors sid cs w = []) as HW.
  { unfold W. split; [|by intros ->].
    intros E. apply (f_equal length) in E.
    rewrite PyFacts.length_last_n in E. simpl in E.
    destruct (survivors sid cs w); [done|]. simpl in E. lia. }
  split; [by destruct W|]. split; [|split; [|done]].
  - rewrite <- HW. destruct W as [|t W']; [done|]. simpl.
    split; [|done]. intros [= E]. exfalso.
    assert (line_of upper <$> t :: W' = []) as E'; [|done].
    apply (join_nil newline); [|done].
    apply Forall_fmap, Forall_forall. intros ? _. apply line_of_nonempty.
  - intros Hd. unfold survivors.
    destruct (kept_within sid cs [] 0%N ltac:(lia)) as [-> Hage].
    by destruct (N.ltb_spec day ((kept sid cs [] 0).2 + w)) as [?|_]; [lia|].
Qed.

End Upper.

Lemma context_text_after_run_witness :
  (get_context_text ascii_upper "s1" None
     (elapse 60 (run 2 session_calls Redis.empty).2)).1.1
  = Some ("AGENT: b" +:+ newline +:+ "USER: c").
Proof.
  destruct (context_text_after_run ascii_upper 2 session_calls "s1" 60)
    as (H & _); [lia | vm_compute; repeat constructor |].
  rewrite H. by vm_compute.
Defined.

End WorkingMemoryFacts.

(** ** Long-term memory *)

Module LongTermMemoryFacts.
Import Heap LongTermMemory Samples.

Section Embedder.

Context {scalar : Type}.
Variable get_embedding : string → option (list scalar).
Variable int : string → option Z.

Implicit Types (s : @t scalar) (h : heap).

(** *** [add_memory] *)

Lemma add_memory_raises now x md h s h' s' :
  add_memory get_embedding now x md h s = (None, h', s') → h' = h ∧ s' = s.
Proof.
  unfold add_memory. destruct (get_embedding x) as [v|]; [|by intros [=]].
  destruct (index_add (index s) v) as [ix|]; [|by intros [=]].
  by destruct md as [l|]; [destruct (truthy h (Some l))|].
Qed.

(** [metadata or {}]: the caller's object when it is a non-empty
    dictionary, a new empty one otherwise. *)
Lemma metadata_or_empty md h l0 h0 :
  (match md with
   | Some l => if truthy h md then (l, h) else alloc ∅ h
   | None => alloc ∅ h
   end) = (l0, h0) →
  (truthy h md = true → md = Some l0 ∧ h0 = h)
  ∧ (truthy h md = false → (l0, h0) = alloc ∅ h).
Proof.
  destruct md as [l|]; simpl.
  - destruct (negb _); intros [= ? ?]; subst; split; done.
  - intros [= ? ?]; subst; split; done.
Qed.

Lemma add_memory_returns now x md h s i h' s' :
  add_memory get_embedding now x md h s = (Some i, h', s') →
  i = next_id s
  ∧ next_id s' = next_id s + 1
  ∧ vector_dim s' = vector_dim s
  ∧ ntotal (index s') = ntotal (index s) + 1
  ∧ ∃ m, id_to_memory s' = <[next_id s := m]> (id_to_memory s)
         ∧ text m = x ∧ id m = next_id s ∧ created_at m = now
         ∧ updated_at m = None ∧ deleted_at m = None
         ∧ (truthy h md = true → md = Some (metadata m) ∧ h' = h)
         ∧ (truthy h md = false → (metadata m, h') = alloc ∅ h).
Proof.
  unfold add_memory. destruct (get_embedding x) as [v|]; [|by intros [=]].
  unfold index_add. case_bool_decide; [|by intros [=]].
  destruct (match md with Some l => _ | None => _ end) as [l0 h0] eqn:E.
  apply metadata_or_empty in E as [E1 E2].
  intros [= <- <- <-]. simpl.
  repeat split; try done.
  - unfold ntotal. simpl. rewrite length_app. simpl. lia.
  - eexists. split; [reflexivity|]. simpl. auto 10.
Qed.

(** *** [update_memory] and [delete_memory] *)

Lemma update_memory_missing now i x md h s :
  id_to_memory s !! i = None →
  update_memory now i x md h s = (false, h, s).
Proof. unfold update_memory. by intros ->. Qed.

Lemma update_memory_found now i x md h s m :
  id_to_memory s !! i = Some m →
  ∃ h' m',
    update_memory now i x md h s
    = (true, h', {| vector_dim := vector_dim s; index := index s;
                    id_to_memory := <[i := m']> (id_to_memory s);
                    next_id := next_id s |})
    ∧ text m' = default (text m) (text_given x)
    ∧ metadata m' = metadata m ∧ created_at m' = created_at m
    ∧ id m' = id m ∧ updated_at m' = Some now
    ∧ deleted_at m' = deleted_at m
    ∧ h' = (if truthy h md
            then store (metadata m)
                   (from_option (deref h) ∅ md ∪ deref h (metadata m)) h
            else h).
Proof.
  intros Hm. unfold update_memory. rewrite Hm.
  eexists _, _. split; [reflexivity|].
  destruct (text_given x) as [y|]; simpl;
    (repeat split; try done); by destruct md as [l|]; simpl.
Qed.

Lemma delete_memory_missing now i h s :
  id_to_memory s !! i = None → delete_memory now i h s = (false, h, s).
Proof. unfold delete_memory. by intros ->. Qed.

Lemma delete_memory_found now i h s m :
  id_to_memory s !! i = Some m →
  ∃ m',
    delete_memory now i h s
    = (true, h, {| vector_dim := vector_dim s; index := index s;
                   id_to_memory := <[i := m']> (id_to_memory s);
                   next_id := next_id s |}).
Proof. intros Hm. unfold delete_memory. rewrite Hm. by eexists. Qed.

(** *** The invariants *)

Lemma init_paired dim : paired (@init scalar dim).
Proof. unfold paired, ntotal. simpl. by rewrite map_size_empty. Qed.

Lemma init_bounded dim : bounded (@init scalar dim).
Proof. intros k [m Hm]. simpl in Hm. by rewrite lookup_empty in Hm. Qed.

Lemma bounded_fresh s : bounded s → id_to_memory s !! next_id s = None.
Proof.
  intros Hb. destruct (id_to_memory s !! next_id s) eqn:E; [|done].
  assert (next_id s < next_id s) by (apply Hb; by rewrite E). lia.
Qed.

Lemma bounded_overwrite s i m m' :
  id_to_memory s !! i = Some m →
  bounded s →
  bounded {| vector_dim := vector_dim s; index := index s;
             id_to_memory := <[i := m']> (id_to_memory s);
             next_id := next_id s |}.
Proof.
  intros Hm Hb k. simpl. rewrite lookup_insert. case_decide as E.
  - subst. intros _. apply Hb. by rewrite Hm.
  - apply Hb.
Qed.

Lemma paired_overwrite s i m m' :
  id_to_memory s !! i = Some m →
  paired s →
  paired {| vector_dim := vector_dim s; index := index s;
            id_to_memory := <[i := m']> (id_to_memory s);
            next_id := next_id s |}.
Proof.
  intros Hm [H1 H2]. unfold paired. simpl.
  by rewrite map_size_insert_Some by (by rewrite Hm).
Qed.

(** One call other than a reload keeps both invariants, never lowers the
    counter, and an id it returns is the counter it found. *)
Lemma step_crud o h s :
  crud o → paired s → bounded s →
  paired (step get_embedding int o h s).2
  ∧ bounded (step get_embedding int o h s).2
  ∧ next_id s ≤ next_id (step get_embedding int o h s).2
  ∧ (∀ i, (step get_embedding int o h s).1.1 = Id i →
          i = next_id s
          ∧ next_id (step get_embedding int o h s).2 = next_id s + 1).
Proof.
  intros Hc Hp Hb.
  destruct o as [now x md|now i x md|now i|a b|c]; simpl; [| | |done|].
  - destruct (add_memory _ _ _ _ _ _) as [[[j|] h'] s'] eqn:E; simpl.
    + apply add_memory_returns in E
        as (-> & Hn & _ & Hix & m & Ht & _).
      pose proof (bounded_fresh s Hb) as Hfresh.
      destruct Hp as [Hp1 Hp2].
      split; [split|split; [|split]].
      * rewrite Hix, Ht, map_size_insert_None by done. lia.
      * rewrite Hn, Ht, map_size_insert_None by done. lia.
      * intros k. rewrite Ht, Hn, lookup_insert. case_decide; [lia|].
        intros Hk. apply Hb in Hk. lia.
      * lia.
      * by intros ? [= <-].
    + apply add_memory_raises in E as [-> ->].
      split; [done|]. split; [done|]. split; [lia|]. by intros i [=].
  - destruct (id_to_memory s !! i) as [m|] eqn:Hm.
    + destruct (update_memory_found now i x md h s m Hm)
        as (h' & m' & -> & _). simpl.
      split; [by eapply paired_overwrite|].
      split; [by eapply bounded_overwrite|].
      split; [lia|done].
    + rewrite update_memory_missing by done. simpl.
      split; [done|]. split; [done|]. split; [lia|]. by intros j [=].
  - destruct (id_to_memory s !! i) as [m|] eqn:Hm.
    + destruct (delete_memory_found now i h s m Hm) as (m' & ->). simpl.
      split; [by eapply paired_overwrite|].
      split; [by eapply bounded_overwrite|].
      split; [lia|done].
    + rewrite delete_memory_missing by done. simpl.
      split; [done|]. split; [done|]. split; [lia|]. by intros j [=].
  - split; [done|]. split; [done|]. split; [lia|]. by intros j [=].
Qed.

(** Along calls other than reloads, the ids handed out are distinct and
    not below the counter the trace started from, and every state of the
    trace is paired. *)
Lemma trace_crud os h s :
  Forall crud os → paired s → bounded s →
  NoDup (returned_ids (trace get_embedding int os h s))
  ∧ Forall (λ i, next_id s ≤ i) (returned_ids (trace get_embedding int os h s))
  ∧ Forall (λ x, paired x.2) (trace get_embedding int os h s).
Proof.
  revert h s. induction os as [|o os IH]; intros h s Hall Hp Hb.
  - simpl. repeat split; constructor.
  - apply Forall_cons in Hall as [Ho Hall].
    destruct (step_crud o h s Ho Hp Hb) as (Hp' & Hb' & Hle & Hid).
    simpl. destruct (step get_embedding int o h s) as [[r h'] s'] eqn:E.
    simpl in *.
    destruct (IH h' s' Hall Hp' Hb') as (Hnd & Hge & Hpa).
    split; [|split].
    + unfold returned_ids. simpl. fold (returned_ids (trace get_embedding int os h' s')).
      destruct r as [|i| |]; simpl; try done.
      destruct (Hid i eq_refl) as [-> Hn].
      apply NoDup_cons. split; [|done].
      intros Hin. rewrite Forall_forall in Hge.
      apply Hge in Hin. lia.
    + unfold returned_ids. simpl. fold (returned_ids (trace get_embedding int os h' s')).
      assert (Forall (λ i, next_id s ≤ i)
                (returned_ids (trace get_embedding int os h' s'))) as Hge'.
      { eapply Forall_impl; [exact Hge|]. simpl. intros; lia. }
      destruct r as [|i| |]; simpl; try done.
      destruct (Hid i eq_refl) as [-> Hn].
      apply Forall_cons. split; [lia|done].
    + apply Forall_cons. split; done.
Qed.

(** *** [load_index] *)

Lemma foldr_max (l : list Z) :
  match foldr (λ k o, Some (from_option (Z.max k) k o)) None l with
  | None => l = []
  | Some k => k ∈ l ∧ ∀ j, j ∈ l → j ≤ k
  end.
Proof.
  induction l as [|a l IH]; [done|]. simpl.
  destruct (foldr _ None l) as [k|]; simpl.
  - destruct IH as [Hk Hle]. split.
    + destruct (Z.max_spec a k) as [[_ ->]|[_ ->]];
        [by apply list_elem_of_further | by apply list_elem_of_here].
    + intros j [->|Hj]%elem_of_cons; [lia|]. apply Hle in Hj. lia.
  - subst l. split; [by apply list_elem_of_here|].
    intros j [->|Hj]%elem_of_cons; [lia|]. by apply elem_of_nil in Hj.
Qed.

Lemma max_key_spec (table : gmap Z Memory) :
  match max_key table with
  | None => table = ∅
  | Some k => is_Some (table !! k) ∧ ∀ j, is_Some (table !! j) → j ≤ k
  end.
Proof.
  unfold max_key. pose proof (foldr_max (elements (dom table))) as H.
  destruct (foldr _ None _) as [k|].
  - destruct H as [Hk Hle]. split.
    + by apply elem_of_dom, elem_of_elements.
    + intros j Hj. by apply Hle, elem_of_elements, elem_of_dom.
  - apply elements_empty_inv in H. apply leibniz_equiv in H.
    by apply dom_empty_iff_L.
Qed.

Lemma json_load_heap items h : h `prefix_of` (json_load items h).2.
Proof.
  revert h. induction items as [|[k r] items IH]; intros h; simpl; [done|].
  specialize (IH (h ++ [s_metadata r])).
  destruct (json_load items _) as [ms h2]. simpl in *.
  etrans; [|exact IH]. by apply prefix_app_r.
Qed.

(** What a failed load leaves: the table and the counter of before, and
    the index of before only when the index artifact itself was not read. *)
Lemma load_index_false a b h s :
  (load_index int a b h s).1.1 = false →
  id_to_memory (load_index int a b h s).2 = id_to_memory s
  ∧ next_id (load_index int a b h s).2 = next_id s
  ∧ vector_dim (load_index int a b h s).2 = vector_dim s
  ∧ index (load_index int a b h s).2
    = match a with Content ix => ix | _ => index s end
  ∧ h `prefix_of` (load_index int a b h s).1.2.
Proof.
  unfold load_index. destruct a as [| |ix]; [done..|].
  destruct b as [| |items]; [done..|].
  pose proof (json_load_heap items h) as Hh.
  destruct (json_load items h) as [ms h']. simpl in Hh.
  by destruct (int_keys int ms ∅).
Qed.

(** What a successful load leaves. *)
Lemma load_index_true a b h s :
  (load_index int a b h s).1.1 = true →
  ∃ ix items,
    a = Content ix ∧ b = Content items
    ∧ index (load_index int a b h s).2 = ix
    ∧ int_keys int (json_load items h).1 ∅
      = Some (id_to_memory (load_index int a b h s).2)
    ∧ next_id (load_index int a b h s).2
      = match max_key (id_to_memory (load_index int a b h s).2) with
        | Some k => k + 1
        | None => next_id s
        end.
Proof.
  unfold load_index. destruct a as [| |ix]; [done..|].
  destruct b as [| |items]; [done..|].
  destruct (json_load items h) as [ms h'] eqn:Ej. simpl.
  destruct (int_keys int ms ∅) as [table|] eqn:E; [|done].
  intros _. exists ix, items. rewrite Ej. simpl. auto.
Qed.

Lemma load_index_bounded a b h s :
  bounded s → bounded (load_index int a b h s).2.
Proof.
  intros Hb. destruct ((load_index int a b h s).1.1) eqn:E.
  - apply load_index_true in E as (ix & items & _ & _ & _ & _ & Hn).
    intros k Hk. rewrite Hn.
    pose proof (max_key_spec (id_to_memory (load_index int a b h s).2)) as H.
    destruct (max_key _) as [j|].
    + destruct H as [_ H]. apply H in Hk. lia.
    + rewrite H, lookup_empty in Hk. by destruct Hk.
  - apply load_index_false in E as (Ht & Hn & _).
    intros k. rewrite Ht, Hn. apply Hb.
Qed.

(** Every call keeps the ids below the counter. *)
Lemma step_bounded o h s :
  bounded s → bounded (step get_embedding int o h s).2.
Proof.
  intros Hb. destruct o as [now x md|now i x md|now i|a b|c]; simpl.
  - destruct (add_memory _ _ _ _ _ _) as [[[j|] h'] s'] eqn:E; simpl.
    + apply add_memory_returns in E as (_ & Hn & _ & _ & m & Ht & _).
      intros k. rewrite Ht, Hn, lookup_insert. case_decide; [lia|].
      intros Hk. apply Hb in Hk. lia.
    + by apply add_memory_raises in E as [_ ->].
  - destruct (id_to_memory s !! i) as [m|] eqn:Hm.
    + destruct (update_memory_found now i x md h s m Hm)
        as (h' & m' & -> & _). simpl. by eapply bounded_overwrite.
    + by rewrite update_memory_missing.
  - destruct (id_to_memory s !! i) as [m|] eqn:Hm.
    + destruct (delete_memory_found now i h s m Hm) as (m' & ->). simpl.
      by eapply bounded_overwrite.
    + by rewrite delete_memory_missing.
  - pose proof (load_index_bounded a b h s Hb) as H.
    by destruct (load_index int a b h s) as [[r h'] s'].
  - done.
Qed.

Lemma exec_bounded os h s :
  bounded s → bounded (exec get_embedding int os h s).2.
Proof.
  revert h s. induction os as [|o os IH]; intros h s Hb; [done|]. simpl.
  pose proof (step_bounded o h s Hb) as H.
  destruct (step get_embedding int o h s) as [[r h'] s']. by apply IH.
Qed.

Lemma count_types_spec h (ms : list Memory) (counts : gmap Py.value Z) :
  match count_types h ms counts with
  | Some c =>
      Forall (λ m, Py.hashable (type_of h m) = true) ms
      ∧ ∀ v, c !! v
             = (if decide (length (filter (λ m, type_of h m = v) ms) = 0%nat)
                then counts !! v
                else Some (default 0 (counts !! v)
                           + Z.of_nat
                               (length (filter (λ m, type_of h m = v) ms))))
  | None => Exists (λ m, Py.hashable (type_of h m) = false) ms
  end.
Proof.
  revert counts. induction ms as [|m ms IH]; intros counts; [by split|].
  simpl. unfold count_one.
  destruct (Py.hashable (type_of h m)) eqn:Eh; [|by apply Exists_cons_hd].
  specialize (IH (<[type_of h m := default 0 (counts !! type_of h m) + 1]>
                    counts)).
  destruct (count_types h ms _) as [c|]; [|by apply Exists_cons_tl].
  destruct IH as [Hall Hc]. split; [by constructor|].
  intros v. rewrite Hc. destruct (decide (type_of h m = v)) as [<-|Hv].
  - rewrite filter_cons_True by done. rewrite lookup_insert_eq.
    cbn [length]. rewrite Nat2Z.inj_succ.
    repeat case_decide; try done; cbn [from_option];
      unfold Datatypes.id; apply (f_equal Some); lia.
  - rewrite filter_cons_False by done. by rewrite lookup_insert_ne.
Qed.

Lemma count_types_perm h (l1 l2 : list Memory) :
  l1 ≡ₚ l2 → count_types h l1 ∅ = count_types h l2 ∅.
Proof.
  intros Hp.
  assert (∀ v, length (filter (λ m, type_of h m = v) l1)
               = length (filter (λ m, type_of h m = v) l2)) as Hlen
    by (intros v; by rewrite Hp).
  pose proof (count_types_spec h l1 ∅) as H1.
  pose proof (count_types_spec h l2 ∅) as H2.
  destruct (count_types h l1 ∅) as [c1|], (count_types h l2 ∅) as [c2|].
  - f_equal. apply map_eq. intros v.
    destruct H1 as [_ ->], H2 as [_ ->]. by rewrite Hlen.
  - destruct H1 as [H1 _]. apply Exists_exists in H2 as (m & Hin & Hm).
    rewrite <- Hp in Hin. rewrite Forall_forall in H1.
    by rewrite (H1 m Hin) in Hm.
  - destruct H2 as [H2 _]. apply Exists_exists in H1 as (m & Hin & Hm).
    rewrite Hp in Hin. rewrite Forall_forall in H2.
    by rewrite (H2 m Hin) in Hm.
  - done.
Qed.

(** Writing a record of the same type over a record leaves the histogram
    as it was. *)
Lemma count_by_type_overwrite h s i m m' :
  id_to_memory s !! i = Some m →
  type_of h m' = type_of h m →
  count_by_type h {| vector_dim := vector_dim s; index := index s;
                     id_to_memory := <[i := m']> (id_to_memory s);
                     next_id := next_id s |}
  = count_by_type h s.
Proof.
  intros Hm Ht. unfold count_by_type. cbn [id_to_memory].
  rewrite <- (insert_delete_id (id_to_memory s) i m Hm) at 2.
  rewrite <- (insert_delete_eq (id_to_memory s) i m').
  rewrite (count_types_perm h _ (m' :: (map_to_list
                                          (delete i (id_to_memory s))).*2)).
  2:{ rewrite map_to_list_insert by apply lookup_delete_eq. done. }
  rewrite (count_types_perm h (map_to_list (<[i:=m]> _)).*2
             (m :: (map_to_list (delete i (id_to_memory s))).*2)).
  2:{ rewrite map_to_list_insert by apply lookup_delete_eq. done. }
  simpl. by rewrite Ht.
Qed.

Lemma get_stats_Some h s st :
  get_stats h s = Some st →
  total_memories st = Z.of_nat (size (id_to_memory s))
  ∧ index_size st = ntotal (index s)
  ∧ vector_dim_ st = vector_dim s
  ∧ count_by_type h s = Some (memories_by_type st).
Proof.
  unfold get_stats. destruct (count_by_type h s) as [c|]; [|done].
  by intros [= <-].
Qed.

(** [get_stats] raises exactly when some record has a type that cannot be
    hashed. *)
Lemma get_stats_None h s :
  get_stats h s = None
  ↔ ∃ k m, get_memory k s = Some m ∧ Py.hashable (type_of h m) = false.
Proof.
  unfold get_stats, count_by_type, get_memory.
  pose proof (count_types_spec h (map_to_list (id_to_memory s)).*2 ∅) as H.
  destruct (count_types h _ ∅) as [c|].
  - destruct H as [Hall _]. split; [done|]. intros (k & m & Hm & Hh).
    rewrite Forall_forall in Hall. rewrite Hall in Hh; [done|].
    apply list_elem_of_fmap. exists (k, m). split; [done|].
    by apply elem_of_map_to_list.
  - split; [|done]. intros _.
    apply Exists_exists in H as (m & Hin & Hm).
    apply list_elem_of_fmap in Hin as ([k m'] & -> & Hin).
    apply elem_of_map_to_list in Hin. by exists k, m'.
Qed.

End Embedder.

(** C5, as amended.  From a fresh store, along any sequence of
    [add_memory], [update_memory] and [delete_memory] calls (the caller may
    create dictionaries in between), the ids returned by [add_memory] are
    pairwise distinct and after every call the index holds as many vectors
    as the table has records, so [get_stats], whenever it returns, reports
    [index_size == total_memories].  It returns unless the metadata of some
    stored record has a ["type"] that cannot be hashed; then it raises. *)
Theorem ids_distinct_and_stats_paired {scalar : Type}
    (get_embedding : string → option (list scalar))
    (int : string → option Z)
    (dim : Z) (os : list (@op scalar)) (h : heap) :
  Forall crud os →
  NoDup (returned_ids (trace get_embedding int os h (init dim)))
  ∧ Forall (λ x,
      ntotal (index x.2) = Z.of_nat (size (id_to_memory x.2))
      ∧ (∀ st, get_stats x.1.2 x.2 = Some st →
           index_size st = total_memories st
           ∧ total_memories st = Z.of_nat (size (id_to_memory x.2)))
      ∧ (get_stats x.1.2 x.2 = None
         ↔ ∃ k m, get_memory k x.2 = Some m
                  ∧ Py.hashable (type_of x.1.2 m) = false))
           (trace get_embedding int os h (init dim)).
Proof.
  intros Hall.
  destruct (trace_crud get_embedding int os h (init dim) Hall
              (init_paired dim) (init_bounded dim)) as (Hnd & _ & Hp).
  split; [done|].
  eapply Forall_impl; [exact Hp|]. intros x [Hx _].
  split; [done|]. split; [|apply get_stats_None].
  intros st (Ht & Hi & _)%get_stats_Some. split; [|done].
  by rewrite Ht, Hi.
Qed.

Lemma ids_distinct_and_stats_paired_witness :
  returned_ids (trace embed2 decimal store_ops [] (init 2)) = [0; 1; 2]
  ∧ (index_size <$> get_stats stocked.1 stocked.2) = Some 3
  ∧ (total_memories <$> get_stats stocked.1 stocked.2) = Some 3
  ∧ NoDup (returned_ids (trace embed2 decimal store_ops [] (init 2)))
  ∧ Forall (λ x,
      ntotal (index x.2) = Z.of_nat (size (id_to_memory x.2))
      ∧ (∀ st, get_stats x.1.2 x.2 = Some st →
           index_size st = total_memories st
           ∧ total_memories st = Z.of_nat (size (id_to_memory x.2)))
      ∧ (get_stats x.1.2 x.2 = None
         ↔ ∃ k m, get_memory k x.2 = Some m
                  ∧ Py.hashable (type_of x.1.2 m) = false))
           (trace embed2 decimal store_ops [] (init 2)).
Proof.
  split; [by vm_compute|]. split; [by vm_compute|]. split; [by vm_compute|].
  apply (ids_distinct_and_stats_paired embed2 decimal 2 store_ops []).
  repeat constructor.
Defined.

(** C5 as stated fails: a record is added whose metadata has a list as its
    ["type"]; [_count_by_type] uses the type as a dictionary key, so
    [get_stats] raises and reports nothing. *)
Lemma get_stats_raises_on_list_type :
  Forall crud list_typed_ops
  ∧ returned_ids (trace embed2 decimal list_typed_ops [] (init 2)) = [0]
  ∧ get_stats (exec embed2 decimal list_typed_ops [] (init 2)).1
      (exec embed2 decimal list_typed_ops [] (init 2)).2 = None
  ∧ ¬ Forall (λ x, ∃ st, get_stats x.1.2 x.2 = Some st
                         ∧ index_size st = total_memories st)
        (trace embed2 decimal list_typed_ops [] (init 2)).
Proof.
  split; [repeat constructor|]. split; [by vm_compute|].
  split; [by vm_compute|].
  intros H. apply Forall_cons in H as [_ H]. apply Forall_cons in H as [H _].
  destruct H as (st & H & _). vm_compute in H. discriminate H.
Qed.

(** C2, as amended.  When [load_index] returns [False], the id-to-record
    table, the next-id counter and every dictionary that existed are what
    they were before the call.  The similarity index is what it was only if
    the index artifact itself could not be read; once that artifact has
    been read, the instance keeps the index read from it, whatever made the
    load fail afterwards. *)
Theorem load_index_failure {scalar : Type} (int : string → option Z)
    (a : artifact (@Index scalar)) (b : artifact (list (string * Stored)))
    (h : heap) (s : @t scalar) :
  (load_index int a b h s).1.1 = false →
  id_to_memory (load_index int a b h s).2 = id_to_memory s
  ∧ next_id (load_index int a b h s).2 = next_id s
  ∧ vector_dim (load_index int a b h s).2 = vector_dim s
  ∧ index (load_index int a b h s).2
    = match a with Content ix => ix | _ => index s end
  ∧ h `prefix_of` (load_index int a b h s).1.2
  ∧ ((∀ ix, a ≠ Content ix) → load_index int a b h s = (false, h, s)).
Proof.
  intros H. apply load_index_false in H as (? & ? & ? & ? & ?).
  repeat (split; [done|]).
  intros Ha. destruct a as [| |ix]; [done..|]. by destruct (Ha ix).
Qed.

Lemma load_index_failure_witness :
  (load_index decimal NotFound (Content []) two_records.1 two_records.2).1.1
  = false
  ∧ index (load_index decimal NotFound (Content [])
             two_records.1 two_records.2).2
    = index two_records.2.
Proof.
  split; [done|].
  by destruct (load_index_failure decimal NotFound (Content [])
                 two_records.1 two_records.2 eq_refl)
    as (_ & _ & _ & H & _).
Defined.

(** C2 as stated fails: the index artifact is read, the map artifact is not
    found; the call returns [False] with the index replaced, and the store
    that was paired reports [index_size] 0 for 2 records. *)
Lemma load_index_failure_replaces_index :
  (index_size <$> get_stats two_records.1 two_records.2) = Some 2
  ∧ (total_memories <$> get_stats two_records.1 two_records.2) = Some 2
  ∧ (load_index decimal (Content empty_index) NotFound
       two_records.1 two_records.2).1.1 = false
  ∧ index (load_index decimal (Content empty_index) NotFound
             two_records.1 two_records.2).2
    ≠ index two_records.2
  ∧ (index_size
       <$> get_stats
             (load_index decimal (Content empty_index) NotFound
                two_records.1 two_records.2).1.2
             (load_index decimal (Content empty_index) NotFound
                two_records.1 two_records.2).2) = Some 0
  ∧ (total_memories
       <$> get_stats
             (load_index decimal (Content empty_index) NotFound
                two_records.1 two_records.2).1.2
             (load_index decimal (Content empty_index) NotFound
                two_records.1 two_records.2).2) = Some 2.
Proof.
  split; [by vm_compute|]. split; [by vm_compute|].
  split; [by vm_compute|]. split.
  - intros H. apply (f_equal (λ ix, length (vectors ix))) in H.
    vm_compute in H. discriminate.
  - split; by vm_compute.
Qed.

(** After a successful load of a table that is not empty, the counter is
    one more than the greatest id of the table. *)
Lemma load_index_counter {scalar : Type} (int : string → option Z)
    (a : artifact (@Index scalar)) (b : artifact (list (string * Stored)))
    (h : heap) (s : @t scalar) :
  (load_index int a b h s).1.1 = true →
  id_to_memory (load_index int a b h s).2 ≠ ∅ →
  ∃ k, is_Some (id_to_memory (load_index int a b h s).2 !! k)
       ∧ (∀ j, is_Some (id_to_memory (load_index int a b h s).2 !! j) → j ≤ k)
       ∧ next_id (load_index int a b h s).2 = k + 1.
Proof.
  intros H Hne. apply load_index_true in H as (_ & _ & _ & _ & _ & _ & Hn).
  pose proof (max_key_spec (id_to_memory (load_index int a b h s).2)) as Hk.
  destruct (max_key _) as [k|]; [|done].
  destruct Hk as [Hk Hle]. by exists k.
Qed.

(** C3 at the failing input.  A store that has handed out ids 0 and 1
    loads the artifacts of an empty store: the call returns [True], the
    table is empty, and the counter is still 2, not 0.  The record added
    next gets id 2 while its vector sits at position 0 of the index. *)
Theorem load_index_empty_table_keeps_counter :
  next_id two_records.2 = 2
  ∧ (load_index decimal (Content empty_index) (Content [])
       two_records.1 two_records.2).1.1 = true
  ∧ id_to_memory (load_index decimal (Content empty_index) (Content [])
                    two_records.1 two_records.2).2 = ∅
  ∧ next_id (load_index decimal (Content empty_index) (Content [])
               two_records.1 two_records.2).2 = 2
  ∧ (add_memory embed2 "t2" "gamma" None two_records.1
       (load_index decimal (Content empty_index) (Content [])
          two_records.1 two_records.2).2).1.1 = Some 2
  ∧ ntotal (index (add_memory embed2 "t2" "gamma" None two_records.1
              (load_index decimal (Content empty_index) (Content [])
                 two_records.1 two_records.2).2).2) = 1.
Proof. repeat split; by vm_compute. Qed.

(** C9, as amended.  [update_memory] on an id that is not in the table
    returns [False] and changes nothing.  On an id that is in the table,
    with the empty string as text and no metadata, it returns [True], keeps
    the record's text and metadata and stamps [updated_at].  Every call
    leaves the index, the counter and the fields of every other record as
    they were; what is read through another record's metadata is unchanged
    as well unless that record refers to the same dictionary object as the
    updated one and the call merges metadata into it. *)
Theorem update_memory_frame {scalar : Type} (now : string) (i : Z)
    (x : option string) (md : option loc) (h : heap) (s : @t scalar) :
  index (update_memory now i x md h s).2 = index s
  ∧ next_id (update_memory now i x md h s).2 = next_id s
  ∧ (∀ j, j ≠ i →
       id_to_memory (update_memory now i x md h s).2 !! j
       = id_to_memory s !! j)
  ∧ (∀ j m, j ≠ i → id_to_memory s !! j = Some m →
       (truthy h md = false
        ∨ ∀ m0, id_to_memory s !! i = Some m0 → metadata m ≠ metadata m0) →
       view (update_memory now i x md h s).1.2 m = view h m)
  ∧ (id_to_memory s !! i = None →
       update_memory now i x md h s = (false, h, s))
  ∧ (∀ m, id_to_memory s !! i = Some m → x = Some "" → md = None →
       (update_memory now i x md h s).1.1 = true
       ∧ (update_memory now i x md h s).1.2 = h
       ∧ id_to_memory (update_memory now i x md h s).2 !! i
         = Some {| text := text m; metadata := metadata m;
                   created_at := created_at m; id := id m;
                   updated_at := Some now; deleted_at := deleted_at m |}).
Proof.
  destruct (id_to_memory s !! i) as [m0|] eqn:Hm.
  - destruct (update_memory_found now i x md h s m0 Hm)
      as (h' & m' & -> & Ht & Hmd & Hc & Hi & Hu & Hd & Hh). simpl.
    split; [done|]. split; [done|]. split; [|split; [|split; [done|]]].
    + intros j Hj. by rewrite lookup_insert_ne.
    + intros j m Hj Hjm Hsep. unfold view. f_equal.
      rewrite Hh. destruct (truthy h md) eqn:Etr; [|done].
      destruct Hsep as [?|Hsep]; [done|].
      unfold deref, store. rewrite list_lookup_insert_ne; [done|].
      intros E. by apply (Hsep m0).
    + intros m [= <-] -> ->. simpl in *. subst h'.
      split; [done|]. split; [done|].
      rewrite lookup_insert_eq. f_equal.
      destruct m'; simpl in *; by subst.
  - rewrite update_memory_missing by done. simpl.
    repeat (split; [done|]). done.
Qed.

Lemma update_memory_frame_witness :
  (update_memory "t2" 0 (Some "") None
     shared_metadata.1 shared_metadata.2).1.1 = true
  ∧ (update_memory "t2" 0 (Some "") None
       shared_metadata.1 shared_metadata.2).1.2 = shared_metadata.1
  ∧ id_to_memory (update_memory "t2" 0 (Some "") None
                    shared_metadata.1 shared_metadata.2).2 !! 0
    = Some {| text := "alpha"; metadata := 0%nat; created_at := "t0";
              id := 0; updated_at := Some "t2"; deleted_at := None |}.
Proof.
  pose proof (update_memory_frame "t2" 0 (Some "") None
                shared_metadata.1 shared_metadata.2)
    as (_ & _ & _ & _ & _ & H).
  apply (H {| text := "alpha"; metadata := 0%nat; created_at := "t0";
              id := 0; updated_at := None; deleted_at := None |});
    done.
Defined.

(** C9 as stated fails: records 0 and 1 were added with the same
    dictionary; merging metadata into record 0 changes what is read
    through record 1. *)
Lemma update_memory_shared_metadata :
  ∃ m,
    id_to_memory shared_metadata.2 !! 1 = Some m
    ∧ (update_memory "t2" 0 None (Some 1%nat)
         shared_metadata.1 shared_metadata.2).1.1 = true
    ∧ id_to_memory (update_memory "t2" 0 None (Some 1%nat)
                      shared_metadata.1 shared_metadata.2).2 !! 1 = Some m
    ∧ s_metadata (view shared_metadata.1 m) !! "mood" = None
    ∧ s_metadata (view (update_memory "t2" 0 None (Some 1%nat)
                          shared_metadata.1 shared_metadata.2).1.2 m)
        !! "mood" = Some (Py.VStr "calm")
    ∧ view (update_memory "t2" 0 None (Some 1%nat)
              shared_metadata.1 shared_metadata.2).1.2 m
      ≠ view shared_metadata.1 m.
Proof.
  exists {| text := "beta"; metadata := 0%nat; created_at := "t1";
            id := 1; updated_at := None; deleted_at := None |}.
  repeat (split; [by vm_compute|]).
  intros H. apply (f_equal (λ v, s_metadata v !! "mood")) in H.
  vm_compute in H. discriminate.
Qed.

(** *** Further operations *)

Section Search.

Context {scalar number : Type}.
Variable get_embedding : string → option (list scalar).
Variable int : string → option Z.
Variable fone : number.
Variable fadd fdiv : number → number → number.
Variable search : @Index scalar → list scalar → Z → option (list (Z * number)).
Variable str : Z → string.

Implicit Types (s : @t scalar) (h : heap).

Lemma deref_alloc_empty h l : deref (alloc ∅ h).2 l = deref h l.
Proof.
  unfold deref, alloc. simpl.
  destruct (decide (l < length h)%nat) as [Hl|Hl].
  - by rewrite lookup_app_l.
  - rewrite lookup_app_r by lia. rewrite (lookup_ge_None_2 h l) by lia.
    by destruct (l - length h)%nat.
Qed.

Lemma falsy_contents h md :
  truthy h md = false → from_option (deref h) ∅ md = ∅.
Proof.
  destruct md as [l|]; [|done]. simpl.
  case_bool_decide; [done|]. by intros [=].
Qed.

(** X6.  [add_memory] raises exactly when the embedder raises or hands
    back a vector whose length is not the dimension of the index, and a
    call that raises leaves the index, the table, the counter and every
    dictionary as they were. *)
Theorem add_memory_raises_atomically now x md h s :
  ((add_memory get_embedding now x md h s).1.1 = None
   ↔ ∀ v, get_embedding x = Some v → Z.of_nat (length v) ≠ d (index s))
  ∧ ((add_memory get_embedding now x md h s).1.1 = None →
     add_memory get_embedding now x md h s = (None, h, s)).
Proof.
  unfold add_memory, index_add.
  destruct (get_embedding x) as [v|]; [|by split; [split|]].
  case_bool_decide as Hd.
  - destruct (match md with Some l => _ | None => _ end) as [l0 h0].
    simpl. split; [split|]; [done| |done].
    intros H. by destruct (H v).
  - split; [split|]; [|done..]. by intros _ v' [= <-].
Qed.

(** X7.  On a store reached from a new one by any calls, reloads
    included, a successful [add_memory] overwrites nothing: the id it
    returns was not in the table, [get_memory] on it gives the new record
    (the text, the time of the call, the contents of the caller's
    metadata, no update or deletion stamp), every other id and every
    record already there read as before. *)
Theorem add_memory_then_get dim os h0 now x md i h' s' :
  add_memory get_embedding now x md
    (exec get_embedding int os h0 (init dim)).1
    (exec get_embedding int os h0 (init dim)).2 = (Some i, h', s') →
  get_memory i (exec get_embedding int os h0 (init dim)).2 = None
  ∧ (∃ m, get_memory i s' = Some m
          ∧ view h' m
            = {| s_text := x;
                 s_metadata :=
                   from_option
                     (deref (exec get_embedding int os h0 (init dim)).1) ∅ md;
                 s_created_at := now; s_id := i;
                 s_updated_at := None; s_deleted_at := None |})
  ∧ (∀ j, j ≠ i →
       get_memory j s'
       = get_memory j (exec get_embedding int os h0 (init dim)).2)
  ∧ (∀ m, view h' m = view (exec get_embedding int os h0 (init dim)).1 m).
Proof.
  pose proof (exec_bounded get_embedding int os h0 (init dim)
                (init_bounded dim)) as Hb.
  destruct (exec get_embedding int os h0 (init dim)) as [h s]. simpl in *.
  intros E.
  apply add_memory_returns in E
    as (-> & _ & _ & _ & m & Ht & Hx & Hi & Hc & Hu & Hd & Hy & Hn).
  unfold get_memory. rewrite Ht.
  split; [by apply bounded_fresh|]. split; [|split].
  - exists m. rewrite lookup_insert_eq. split; [done|].
    unfold view. rewrite Hx, Hi, Hc, Hu, Hd. f_equal.
    destruct (truthy h md) eqn:Etr.
    + by destruct (Hy eq_refl) as [-> ->].
    + rewrite falsy_contents by done.
      specialize (Hn eq_refl). injection Hn as -> ->.
      unfold deref. by rewrite lookup_app_r, Nat.sub_diag by lia.
  - intros j Hj. by rewrite lookup_insert_ne.
  - intros m0. unfold view. f_equal.
    destruct (truthy h md) eqn:Etr.
    + by destruct (Hy eq_refl) as [_ ->].
    + specialize (Hn eq_refl).
      replace h' with (alloc ∅ h).2 by (by rewrite <- Hn).
      apply deref_alloc_empty.
Qed.

(** X8.  [delete_memory] only stamps the record: it returns whether the
    id is in the table, [get_memory] still returns the record, now with
    [deleted_at] set to the time of the call, and the index, the counter,
    the statistics, the dictionaries and the other records are unchanged.
    A later [update_memory] of the same id succeeds as if nothing had been
    deleted. *)
Theorem delete_memory_is_logical now i h s :
  (delete_memory now i h s).1.1 = bool_decide (is_Some (get_memory i s))
  ∧ get_memory i (delete_memory now i h s).2
    = (λ m, {| text := text m; metadata := metadata m;
               created_at := created_at m; id := id m;
               updated_at := updated_at m; deleted_at := Some now |})
      <$> get_memory i s
  ∧ (∀ j, j ≠ i →
       get_memory j (delete_memory now i h s).2 = get_memory j s)
  ∧ (delete_memory now i h s).1.2 = h
  ∧ index (delete_memory now i h s).2 = index s
  ∧ next_id (delete_memory now i h s).2 = next_id s
  ∧ get_stats (delete_memory now i h s).1.2 (delete_memory now i h s).2
    = get_stats h s
  ∧ (∀ now' x md,
       (update_memory now' i x md h (delete_memory now i h s).2).1.1
       = (delete_memory now i h s).1.1).
Proof.
  unfold delete_memory, get_memory.
  destruct (id_to_memory s !! i) as [m|] eqn:Hm.
  - split; [symmetry; by apply bool_decide_eq_true_2|]. simpl.
    split; [by rewrite lookup_insert_eq|].
    split; [by intros j Hj; rewrite lookup_insert_ne|].
    split; [done|]. split; [done|]. split; [done|]. split.
    + unfold get_stats.
      rewrite (count_by_type_overwrite h s i m) by done. simpl.
      by rewrite map_size_insert_Some by (by rewrite Hm).
    + intros now' x md. unfold update_memory. simpl.
      by rewrite lookup_insert_eq.
  - split; [symmetry; apply bool_decide_eq_false_2; by intros [? ?]|].
    simpl. repeat (split; [done|]).
    intros now' x md. by rewrite update_memory_missing.
Qed.

(** *** [search_similar] *)

Lemma init_dense dim : dense (@init scalar dim).
Proof.
  split; [done|]. intros k. simpl. rewrite lookup_empty. split.
  - by intros [? ?].
  - lia.
Qed.

Lemma dense_overwrite s i m m' :
  id_to_memory s !! i = Some m →
  dense s →
  dense {| vector_dim := vector_dim s; index := index s;
           id_to_memory := <[i := m']> (id_to_memory s);
           next_id := next_id s |}.
Proof.
  intros Hm [Hn Hd]. split; [done|]. intros k. simpl.
  rewrite <- Hd. destruct (decide (k = i)) as [->|Hk].
  - rewrite lookup_insert_eq, Hm. by split.
  - by rewrite lookup_insert_ne.
Qed.

Lemma step_dense o h s :
  crud o → dense s → dense (step get_embedding int o h s).2.
Proof.
  intros Hc Hd. destruct o as [now x md|now i x md|now i|a b|c]; simpl.
  - destruct (add_memory _ _ _ _ _ _) as [[[j|] h'] s'] eqn:E; simpl.
    + apply add_memory_returns in E as (_ & Hn & _ & Hi & m & Ht & _).
      destruct Hd as [Hx Hd]. split; [lia|].
      intros k. rewrite Ht, Hn. destruct (decide (k = next_id s)) as [->|Hk].
      * rewrite lookup_insert_eq. split; [|done]. intros _.
        pose proof (Nat2Z.is_nonneg (length (vectors (index s)))).
        unfold ntotal in Hx. lia.
      * rewrite lookup_insert_ne by done. rewrite Hd. lia.
    + by apply add_memory_raises in E as [_ ->].
  - destruct (id_to_memory s !! i) as [m|] eqn:Hm.
    + destruct (update_memory_found now i x md h s m Hm)
        as (h' & m' & -> & _). simpl. by eapply dense_overwrite.
    + by rewrite update_memory_missing.
  - destruct (id_to_memory s !! i) as [m|] eqn:Hm.
    + destruct (delete_memory_found now i h s m Hm) as (m' & ->). simpl.
      by eapply dense_overwrite.
    + by rewrite delete_memory_missing.
  - done.
  - done.
Qed.

Lemma exec_dense os h s :
  Forall crud os → dense s → dense (exec get_embedding int os h s).2.
Proof.
  intros Hall. revert h s.
  induction Hall as [|o os Ho _ IH]; intros h s Hd; [done|]. simpl.
  pose proof (step_dense o h s Ho Hd) as H.
  destruct (step get_embedding int o h s) as [[r h'] s']. by apply IH.
Qed.

Lemma omap_hit_of_dense s (hits : list (Z * number)) :
  dense s →
  Forall (λ p, -1 ≤ p.1 < ntotal (index s)) hits →
  (λ r, (hit_id r, distance r)) <$> omap (hit_of fone fadd fdiv s) hits
  = filter (λ p, 0 ≤ p.1) hits
  ∧ Forall (λ r, get_memory (hit_id r) s = Some (hit_memory r)
                 ∧ similarity r = fdiv fone (fadd fone (distance r)))
           (omap (hit_of fone fadd fdiv s) hits).
Proof.
  intros [Hn Hd]. induction 1 as [|[idx dist] hits Hp _ [IH1 IH2]];
    [by split|].
  simpl in Hp. cbn [omap list_omap].
  destruct (Z.leb_spec 0 idx) as [Hi|Hi].
  - destruct (proj2 (Hd idx) ltac:(lia)) as [m Hm].
    assert (hit_of fone fadd fdiv s (idx, dist)
            = Some {| hit_id := idx;
                      similarity := fdiv fone (fadd fone dist);
                      distance := dist; hit_memory := m |}) as ->.
    { unfold hit_of. simpl. rewrite Hm.
      by destruct (Z.leb_spec 0 idx); [|lia]. }
    rewrite filter_cons_True by done. split.
    + rewrite fmap_cons. simpl. by rewrite IH1.
    + by constructor.
  - assert (hit_of fone fadd fdiv s (idx, dist) = None) as ->.
    { unfold hit_of. simpl. by destruct (Z.leb_spec 0 idx); [lia|]. }
    by rewrite filter_cons_False by (simpl; lia).
Qed.

(** X9.  In a store built from a new one by [add_memory],
    [update_memory] and [delete_memory] calls, every position the index
    reports resolves to a record: when the index answers with positions that
    are -1 or below its size, [search_similar] returns one hit for each
    position that is not -1, in the order and with the distances reported;
    each hit carries the record [get_memory] gives for its id and the
    similarity [1.0 / (1.0 + distance)]. *)
Theorem search_resolves_every_position dim os h0 q k v hits :
  Forall crud os →
  get_embedding q = Some v →
  search (index (exec get_embedding int os h0 (init dim)).2) v
    (Z.min k (ntotal (index (exec get_embedding int os h0 (init dim)).2)))
  = Some hits →
  Forall (λ p, -1 ≤ p.1
               < ntotal (index (exec get_embedding int os h0 (init dim)).2))
         hits →
  (λ r, (hit_id r, distance r))
    <$> search_similar get_embedding fone fadd fdiv search q k
          (exec get_embedding int os h0 (init dim)).2
  = filter (λ p, 0 ≤ p.1) hits
  ∧ Forall (λ r, get_memory (hit_id r)
                   (exec get_embedding int os h0 (init dim)).2
                 = Some (hit_memory r)
                 ∧ similarity r = fdiv fone (fadd fone (distance r)))
           (search_similar get_embedding fone fadd fdiv search q k
              (exec get_embedding int os h0 (init dim)).2).
Proof.
  intros Hall Hq Hs Hpos.
  pose proof (exec_dense os h0 (init dim) Hall (init_dense dim)) as Hd.
  destruct (exec get_embedding int os h0 (init dim)) as [h s]. simpl in *.
  unfold search_similar.
  destruct (Z.eqb_spec (ntotal (index s)) 0) as [E|E].
  - split; [|done].
    assert (filter (λ p : Z * number, 0 ≤ p.1) hits = []) as ->; [|done].
    clear Hs. induction Hpos as [|p hits Hp _ IH]; [done|].
    by rewrite filter_cons_False by lia.
  - rewrite Hq, Hs. by apply omap_hit_of_dense.
Qed.

Lemma hit_of_ranking s s' (p : Z * number) :
  (∀ k, is_Some (id_to_memory s' !! k) ↔ is_Some (id_to_memory s !! k)) →
  (λ r, (hit_id r, distance r, similarity r)) <$> hit_of fone fadd fdiv s' p
  = (λ r, (hit_id r, distance r, similarity r)) <$> hit_of fone fadd fdiv s p.
Proof.
  intros H. unfold hit_of. destruct (0 <=? p.1); [|done].
  specialize (H p.1).
  destruct (id_to_memory s' !! p.1) as [m'|],
           (id_to_memory s !! p.1) as [m|]; try done.
  - destruct (proj1 H) as [? [=]]. done.
  - destruct (proj2 H) as [? [=]]. done.
Qed.

Lemma omap_hit_of_ranking s s' (hits : list (Z * number)) :
  (∀ k, is_Some (id_to_memory s' !! k) ↔ is_Some (id_to_memory s !! k)) →
  ranking (omap (hit_of fone fadd fdiv s') hits)
  = ranking (omap (hit_of fone fadd fdiv s) hits).
Proof.
  intros H. unfold ranking. induction hits as [|p hits IH]; [done|].
  cbn [omap list_omap]. pose proof (hit_of_ranking s s' p H) as Hp.
  destruct (hit_of fone fadd fdiv s' p) as [r'|],
           (hit_of fone fadd fdiv s p) as [r|]; try done.
  rewrite !fmap_cons. injection Hp as -> -> ->. by rewrite IH.
Qed.

(** A search on two stores with the same index and the same ids ranks
    alike. *)
Lemma search_similar_ranking s s' q k :
  index s' = index s →
  (∀ k, is_Some (id_to_memory s' !! k) ↔ is_Some (id_to_memory s !! k)) →
  ranking (search_similar get_embedding fone fadd fdiv search q k s')
  = ranking (search_similar get_embedding fone fadd fdiv search q k s).
Proof.
  intros Hi Hk. unfold search_similar. rewrite Hi.
  destruct (ntotal (index s) =? 0); [done|].
  destruct (get_embedding q) as [v|]; [|done].
  destruct (search _ _ _) as [hits|]; [|done].
  by apply omap_hit_of_ranking.
Qed.

Lemma search_similar_hits s q k r :
  r ∈ search_similar get_embedding fone fadd fdiv search q k s →
  get_memory (hit_id r) s = Some (hit_memory r).
Proof.
  unfold search_similar.
  destruct (ntotal (index s) =? 0); [by intros ?%elem_of_nil|].
  destruct (get_embedding q) as [v|]; [|by intros ?%elem_of_nil].
  destruct (search _ _ _) as [hits|]; [|by intros ?%elem_of_nil].
  intros (p & _ & Hp)%list_elem_of_omap. unfold hit_of in Hp.
  destruct (0 <=? p.1); [|done].
  destruct (id_to_memory s !! p.1) as [m|] eqn:Hm; [|done].
  by injection Hp as <-.
Qed.

Lemma overwrite_same_ids s i m' k :
  is_Some (id_to_memory s !! i) →
  is_Some (<[i := m']> (id_to_memory s) !! k)
  ↔ is_Some (id_to_memory s !! k).
Proof.
  intros Hi. destruct (decide (k = i)) as [->|Hk].
  - rewrite lookup_insert_eq. by split.
  - by rewrite lookup_insert_ne.
Qed.

(** X10.  [delete_memory] takes nothing out of the search: after it,
    [search_similar] returns hits with the same ids, distances and
    similarities in the same order as before, and a hit for the deleted id
    carries the record with its [deleted_at] stamp. *)
Theorem search_returns_deleted now i h s q k :
  ranking (search_similar get_embedding fone fadd fdiv search q k
             (delete_memory now i h s).2)
  = ranking (search_similar get_embedding fone fadd fdiv search q k s)
  ∧ (∀ r, r ∈ search_similar get_embedding fone fadd fdiv search q k
                (delete_memory now i h s).2 →
          hit_id r = i → deleted_at (hit_memory r) = Some now).
Proof.
  destruct (id_to_memory s !! i) as [m|] eqn:Hm.
  - split.
    + apply search_similar_ranking.
      * unfold delete_memory. by rewrite Hm.
      * intros j. unfold delete_memory. rewrite Hm. simpl.
        by apply overwrite_same_ids.
    + intros r Hr Hi. apply search_similar_hits in Hr. revert Hr.
      rewrite Hi. unfold delete_memory, get_memory. rewrite Hm. simpl.
      rewrite lookup_insert_eq. by intros [= <-].
  - rewrite delete_memory_missing by done. simpl. split; [done|].
    intros r Hr Hi. apply search_similar_hits in Hr.
    unfold get_memory in Hr. by rewrite Hi, Hm in Hr.
Qed.

(** X11.  [update_memory] does not embed the new text: the index is the
    one before the call, so [search_similar] ranks as before (same ids,
    distances and similarities, in the same order), while a hit for the
    updated id shows the new text and the [updated_at] stamp. *)
Theorem search_after_update now i x md h s q k :
  index (update_memory now i x md h s).2 = index s
  ∧ ranking (search_similar get_embedding fone fadd fdiv search q k
               (update_memory now i x md h s).2)
    = ranking (search_similar get_embedding fone fadd fdiv search q k s)
  ∧ (∀ r, r ∈ search_similar get_embedding fone fadd fdiv search q k
                (update_memory now i x md h s).2 →
          hit_id r = i →
          updated_at (hit_memory r) = Some now
          ∧ ∀ y, text_given x = Some y → text (hit_memory r) = y).
Proof.
  destruct (id_to_memory s !! i) as [m|] eqn:Hm.
  - destruct (update_memory_found now i x md h s m Hm)
      as (h' & m' & -> & Ht & _ & _ & _ & Hu & _). simpl.
    split; [done|]. split.
    + apply search_similar_ranking; [done|].
      intros j. simpl. by apply overwrite_same_ids.
    + intros r Hr Hi. apply search_similar_hits in Hr. revert Hr.
      rewrite Hi. unfold get_memory. simpl.
      rewrite lookup_insert_eq. intros [= <-]. split; [done|].
      intros y Hy. by rewrite Ht, Hy.
  - rewrite update_memory_missing by done. simpl.
    split; [done|]. split; [done|].
    intros r Hr Hi. apply search_similar_hits in Hr.
    unfold get_memory in Hr. by rewrite Hi, Hm in Hr.
Qed.

(** X23.  [update_memory] on a stored id merges the metadata key by
    key, the caller's values winning and the other keys kept; an empty
    text and an empty or absent metadata leave the text and the metadata
    as they were; [created_at], [id] and [deleted_at] are kept and
    [updated_at] is stamped.  No dictionary other than the record's is
    written, the caller's included. *)
Theorem update_memory_merges now i x md h s m :
  get_memory i s = Some m →
  (metadata m < length h)%nat →
  (update_memory now i x md h s).1.1 = true
  ∧ (∃ m', get_memory i (update_memory now i x md h s).2 = Some m'
           ∧ text m' = default (text m) (text_given x)
           ∧ metadata m' = metadata m
           ∧ created_at m' = created_at m
           ∧ id m' = id m
           ∧ deleted_at m' = deleted_at m
           ∧ updated_at m' = Some now)
  ∧ (∀ k, deref (update_memory now i x md h s).1.2 (metadata m) !! k
          = match from_option (deref h) ∅ md !! k with
            | Some v => Some v
            | None => deref h (metadata m) !! k
            end)
  ∧ (∀ l, l ≠ metadata m →
       deref (update_memory now i x md h s).1.2 l = deref h l).
Proof.
  intros Hm Hl. unfold get_memory in *.
  destruct (update_memory_found now i x md h s m Hm)
    as (h' & m' & -> & Ht & Hmd & Hc & Hi & Hu & Hd & Hh). simpl.
  split; [done|]. split; [|split].
  - exists m'. by rewrite lookup_insert_eq.
  - intros k. rewrite Hh. destruct (truthy h md) eqn:Etr.
    + unfold deref at 1, store. rewrite list_lookup_insert_eq by done. simpl.
      rewrite lookup_union.
      destruct (from_option (deref h) ∅ md !! k) as [v|];
        by destruct (deref h (metadata m) !! k).
    + by rewrite falsy_contents, lookup_empty by done.
  - intros l Hne. rewrite Hh. destruct (truthy h md); [|done].
    unfold deref, store. by rewrite list_lookup_insert_ne.
Qed.

(** *** [save_index] and [load_index] *)

(** Reading back what [json.dump] wrote for the records [items]: every
    record is found under its id, reads as it did when saved, and has a
    metadata dictionary of its own, allocated in the order of the file. *)
Lemma load_dump (items : list (Z * Memory)) h h1 (acc : gmap Z Memory) :
  (∀ p, p ∈ items → int (str p.1) = Some p.1) →
  NoDup items.*1 →
  ∃ table,
    int_keys int
      (json_load ((λ p, (str p.1, view h p.2)) <$> items) h1).1 acc
    = Some table
    ∧ ∀ k,
        (k ∉ items.*1 → table !! k = acc !! k)
        ∧ ∀ n m, items !! n = Some (k, m) →
            ∃ m', table !! k = Some m'
                  ∧ metadata m' = (length h1 + n)%nat
                  ∧ ∀ h', (json_load ((λ p, (str p.1, view h p.2)) <$> items)
                             h1).2 `prefix_of` h' →
                          view h' m' = view h m.
Proof.
  revert h1 acc. induction items as [|[z m0] items IH]; intros h1 acc Hint Hnd.
  { exists acc. split; [done|]. intros k. split; [done|]. by intros n m. }
  apply NoDup_cons in Hnd as [Hz Hnd]. rewrite fmap_cons. simpl.
  destruct (json_load ((λ p, (str p.1, view h p.2)) <$> items)
              (h1 ++ [deref h (metadata m0)])) as [ms h2] eqn:Ej.
  pose proof (Hint (z, m0) (list_elem_of_here _ _)) as Hz0.
  simpl in Hz0 |- *. rewrite Hz0.
  destruct (IH (h1 ++ [deref h (metadata m0)])
              (<[z := {| text := text m0; metadata := length h1;
                         created_at := created_at m0; id := id m0;
                         updated_at := updated_at m0;
                         deleted_at := deleted_at m0 |}]> acc))
    as (table & Ht & Hk); [|done|].
  { intros p Hp. apply Hint. by apply list_elem_of_further. }
  pose proof (json_load_heap ((λ p, (str p.1, view h p.2)) <$> items)
                (h1 ++ [deref h (metadata m0)])) as Hpre.
  rewrite Ej in Ht, Hk, Hpre. simpl in Ht, Hk, Hpre.
  exists table. split; [done|]. intros k. split.
  - intros Hnot. rewrite (proj1 (Hk k)).
    + apply lookup_insert_ne. intros ->. apply Hnot, list_elem_of_here.
    + intros Hin. apply Hnot. by apply list_elem_of_further.
  - intros [|n] m Hn; simpl in Hn.
    + injection Hn as -> ->. eexists. split; [|split].
      * rewrite (proj1 (Hk k)) by done. apply lookup_insert_eq.
      * simpl. lia.
      * intros h' Hh'. unfold view. simpl. f_equal.
        destruct Hpre as [k1 ->]. destruct Hh' as [k2 ->].
        unfold deref. rewrite <- !app_assoc.
        by rewrite lookup_app_r, Nat.sub_diag by lia.
    + destruct (proj2 (Hk k) n m Hn) as (m' & Hm' & Hl & Hv).
      exists m'. split; [done|]. split; [|done].
      rewrite Hl, length_app. simpl. lia.
Qed.

(** X12.  What [save_index] writes without a fault, [load_index] reads
    back, on any instance: the call returns [True]; the instance gets
    the saved index and a table with the saved ids, each record reading as
    it did when saved; the counter is one more than the largest saved id
    (it is kept when nothing was saved) and [vector_dim] is kept.  Two
    different ids never share a metadata dictionary after the load, whatever
    they shared before the save.  The keys must survive [str] followed by
    [int]. *)
Theorem save_then_load h s dk h1 s1 :
  map_Forall (λ k _, int (str k) = Some k) (id_to_memory s) →
  (load_index int
     (index_file (save_index str NoFault h s dk).2)
     (map_file (save_index str NoFault h s dk).2) h1 s1).1.1 = true
  ∧ index (load_index int
             (index_file (save_index str NoFault h s dk).2)
             (map_file (save_index str NoFault h s dk).2) h1 s1).2
    = index s
  ∧ dom (id_to_memory
           (load_index int
              (index_file (save_index str NoFault h s dk).2)
              (map_file (save_index str NoFault h s dk).2) h1 s1).2)
    = dom (id_to_memory s)
  ∧ (∀ k m, get_memory k s = Some m →
       ∃ m', get_memory k
               (load_index int
                  (index_file (save_index str NoFault h s dk).2)
                  (map_file (save_index str NoFault h s dk).2) h1 s1).2
             = Some m'
             ∧ view (load_index int
                       (index_file (save_index str NoFault h s dk).2)
                       (map_file (save_index str NoFault h s dk).2)
                       h1 s1).1.2 m'
               = view h m)
  ∧ (∀ k k' m m',
       let after :=
         (load_index int
            (index_file (save_index str NoFault h s dk).2)
            (map_file (save_index str NoFault h s dk).2) h1 s1).2 in
       k ≠ k' → get_memory k after = Some m → get_memory k' after = Some m' →
       metadata m ≠ metadata m')
  ∧ next_id (load_index int
               (index_file (save_index str NoFault h s dk).2)
               (map_file (save_index str NoFault h s dk).2) h1 s1).2
    = match max_key (id_to_memory s) with
      | Some k => k + 1
      | None => next_id s1
      end
  ∧ vector_dim (load_index int
                  (index_file (save_index str NoFault h s dk).2)
                  (map_file (save_index str NoFault h s dk).2) h1 s1).2
    = vector_dim s1.
Proof.
  intros Hkeys. simpl. unfold load_index, dump.
  destruct (load_dump (map_to_list (id_to_memory s)) h h1 ∅)
    as (table & Ht & Hk).
  { intros [k m] Hp. apply elem_of_map_to_list in Hp.
    by apply (Hkeys k m). }
  { apply NoDup_fst_map_to_list. }
  destruct (json_load _ h1) as [ms h2]. simpl in Ht, Hk. rewrite Ht. simpl.
  assert (∀ k m, id_to_memory s !! k = Some m →
            ∃ n, map_to_list (id_to_memory s) !! n = Some (k, m)) as Hpos.
  { intros k m Hm. apply list_elem_of_lookup_1.
    by apply elem_of_map_to_list. }
  assert (dom table = dom (id_to_memory s)) as Hdom.
  { apply set_eq. intros k. rewrite !elem_of_dom. split.
    - intros Hs.
      destruct (decide (k ∈ (map_to_list (id_to_memory s)).*1))
        as [Hin|Hnot].
      + apply list_elem_of_fmap in Hin as ([k' m] & -> & Hin).
        apply elem_of_map_to_list in Hin. by exists m.
      + rewrite (proj1 (Hk k) Hnot), lookup_empty in Hs. by destruct Hs.
    - intros [m Hm]. destruct (Hpos k m Hm) as [n Hn].
      destruct (proj2 (Hk k) n m Hn) as (m' & Hm' & _). by exists m'. }
  split; [done|]. split; [done|]. split; [done|].
  split; [|split; [|split; [|done]]].
  - intros k m Hm. destruct (Hpos k m Hm) as [n Hn].
    destruct (proj2 (Hk k) n m Hn) as (m' & Hm' & _ & Hv).
    exists m'. split; [done|]. by apply Hv.
  - intros k k' m m' Hne Hm Hm'. unfold get_memory in Hm, Hm'.
    simpl in Hm, Hm'.
    assert (is_Some (id_to_memory s !! k)) as [m0 Hm0].
    { apply elem_of_dom. rewrite <- Hdom. apply elem_of_dom. by exists m. }
    assert (is_Some (id_to_memory s !! k')) as [m0' Hm0'].
    { apply elem_of_dom. rewrite <- Hdom. apply elem_of_dom. by exists m'. }
    destruct (Hpos k m0 Hm0) as [n Hn]. destruct (Hpos k' m0' Hm0') as [n' Hn'].
    destruct (proj2 (Hk k) n m0 Hn) as (m1 & Hm1 & Hl & _).
    destruct (proj2 (Hk k') n' m0' Hn') as (m1' & Hm1' & Hl' & _).
    rewrite Hm in Hm1. rewrite Hm' in Hm1'.
    injection Hm1 as <-. injection Hm1' as <-.
    rewrite Hl, Hl'. intros E. assert (n = n') as -> by lia.
    rewrite Hn in Hn'. by injection Hn'.
  - unfold max_key. by rewrite Hdom.
Qed.

(** *** [_count_by_type] *)

(** X13.  The histogram of [get_stats]: building it raises exactly when
    the metadata of some record has a list as its ["type"]; otherwise every
    type is mapped to the number of records of that type, a record whose
    metadata has no ["type"] counting as ["unknown"], and a type no record
    has is not a key. *)
Theorem count_by_type_counts h s :
  match count_by_type h s with
  | Some counts =>
      map_Forall (λ _ m, Py.hashable (type_of h m) = true) (id_to_memory s)
      ∧ ∀ v, counts !! v
             = (if decide (length (filter (λ m, type_of h m = v)
                                     (map_to_list (id_to_memory s)).*2)
                           = 0%nat)
                then None
                else Some (Z.of_nat
                             (length (filter (λ m, type_of h m = v)
                                        (map_to_list (id_to_memory s)).*2))))
  | None =>
      ∃ k m, get_memory k s = Some m ∧ Py.hashable (type_of h m) = false
  end.
Proof.
  unfold count_by_type.
  pose proof (count_types_spec h (map_to_list (id_to_memory s)).*2 ∅) as H.
  destruct (count_types h _ ∅) as [c|].
  - destruct H as [Hall Hc]. split.
    + intros k m Hm. rewrite Forall_forall in Hall. apply Hall.
      apply list_elem_of_fmap. exists (k, m). split; [done|].
      by apply elem_of_map_to_list.
    + intros v. rewrite Hc, lookup_empty. by case_decide.
  - apply Exists_exists in H as (m & Hin & Hm).
    apply list_elem_of_fmap in Hin as ([k m'] & -> & Hin).
    apply elem_of_map_to_list in Hin. by exists k, m'.
Qed.

End Search.

Lemma add_memory_then_get_witness :
  restocked.1.1 = Some 3
  ∧ get_memory 3 stocked.2 = None
  ∧ (∃ m, get_memory 3 restocked.2 = Some m
          ∧ view restocked.1.2 m
            = {| s_text := "eps";
                 s_metadata := from_option (deref stocked.1) ∅ (Some 1%nat);
                 s_created_at := "t6"; s_id := 3;
                 s_updated_at := None; s_deleted_at := None |})
  ∧ (∀ j, j ≠ 3 → get_memory j restocked.2 = get_memory j stocked.2)
  ∧ (∀ m, view restocked.1.2 m = view stocked.1 m).
Proof.
  split; [by vm_compute|].
  apply (add_memory_then_get embed2 decimal 2 store_ops [] "t6" "eps"
           (Some 1%nat) 3 restocked.1.2 restocked.2).
  by vm_compute.
Defined.

Lemma search_resolves_every_position_witness :
  (λ r, (hit_id r, distance r))
    <$> search_similar embed2 1 Z.add Z.div scan "ab" 2 stocked.2
  = filter (λ p, 0 ≤ p.1) [(0, 9); (1, 4)]
  ∧ Forall (λ r, get_memory (hit_id r) stocked.2 = Some (hit_memory r)
                 ∧ similarity r = 1 `div` (1 + distance r))
           (search_similar embed2 1 Z.add Z.div scan "ab" 2 stocked.2).
Proof.
  apply (search_resolves_every_position embed2 decimal 1 Z.add Z.div scan
           2 store_ops [] "ab" 2 [0; 2] [(0, 9); (1, 4)]).
  - repeat constructor.
  - reflexivity.
  - by vm_compute.
  - apply Forall_cons; split; [by vm_compute|].
    apply Forall_cons; split; [by vm_compute|]. constructor.
Defined.

Lemma save_then_load_witness :
  reloaded.1.1 = true
  ∧ index reloaded.2 = index stocked.2
  ∧ dom (id_to_memory reloaded.2) = dom (id_to_memory stocked.2)
  ∧ (∀ k m, get_memory k stocked.2 = Some m →
       ∃ m', get_memory k reloaded.2 = Some m'
             ∧ view reloaded.1.2 m' = view stocked.1 m)
  ∧ (∀ k k' m m',
       let after := reloaded.2 in
       k ≠ k' → get_memory k after = Some m → get_memory k' after = Some m' →
       metadata m ≠ metadata m')
  ∧ next_id reloaded.2
    = match max_key (id_to_memory stocked.2) with
      | Some k => k + 1
      | None => next_id (@init Z 2)
      end
  ∧ vector_dim reloaded.2 = vector_dim (@init Z 2).
Proof.
  apply (save_then_load decimal pretty stocked.1 stocked.2
           {| index_file := NotFound; map_file := NotFound |} [] (init 2)).
  apply (bool_decide_unpack _). by vm_compute.
Defined.

Lemma update_memory_merges_witness :
  deref (update_memory "t2" 0 None (Some 1%nat)
           shared_metadata.1 shared_metadata.2).1.2 0%nat !! "mood"
  = Some (Py.VStr "calm")
  ∧ deref (update_memory "t2" 0 None (Some 1%nat)
             shared_metadata.1 shared_metadata.2).1.2 0%nat !! "topic"
    = Some (Py.VStr "tea")
  ∧ deref (update_memory "t2" 0 None (Some 1%nat)
             shared_metadata.1 shared_metadata.2).1.2 1%nat
    = deref shared_metadata.1 1%nat.
Proof.
  destruct (update_memory_merges "t2" 0 None (Some 1%nat)
              shared_metadata.1 shared_metadata.2
              {| text := "alpha"; metadata := 0%nat; created_at := "t0";
                 id := 0; updated_at := None; deleted_at := None |})
    as (_ & _ & Hk & Hl); [by vm_compute|vm_compute; lia|].
  cbn [metadata] in Hk, Hl. split; [|split].
  - rewrite (Hk "mood"). by vm_compute.
  - rewrite (Hk "topic"). by vm_compute.
  - by apply Hl.
Defined.

End LongTermMemoryFacts.

(** ** Memory manager *)

Module MemoryManagerFacts.
Import Heap LongTermMemory MemoryManager LongTermMemoryFacts Samples.

Lemma tags_lookup sid role p :
  tags sid role p !! "session_id" = Some (Py.VStr sid)
  ∧ tags sid role p !! "role" = Some (Py.VStr role)
  ∧ tags sid role p !! "priority" = Some (Py.VStr (name p))
  ∧ tags sid role p !! "type" = Some (Py.VStr "interaction").
Proof. done. Qed.

Lemma interaction_meta_lookup sid role p h md k :
  interaction_meta sid role p h md !! k
  = match from_option (deref h) ∅ md !! k with
    | Some v => Some v
    | None => tags sid role p !! k
    end.
Proof.
  unfold interaction_meta. rewrite lookup_union.
  destruct (from_option (deref h) ∅ md !! k) as [v|];
    by destruct (tags sid role p !! k).
Qed.

Lemma interaction_meta_truthy sid role p h md h' l :
  deref h' l = interaction_meta sid role p h md →
  truthy h' (Some l) = true.
Proof.
  intros E. unfold truthy. rewrite E. case_bool_decide as H; [|done].
  apply (f_equal (λ d, d !! "type")) in H.
  rewrite interaction_meta_lookup, lookup_empty in H.
  by destruct (from_option (deref h) ∅ md !! "type").
Qed.

Lemma deref_alloc d h : deref (alloc d h).2 (alloc d h).1 = d.
Proof. unfold deref, alloc. simpl. by rewrite list_lookup_middle. Qed.

Section Embedder.

Context {scalar : Type}.
Variable get_embedding : string → option (list scalar).

Implicit Types (s : @MemoryManager.t scalar).

(** The boolean [add_interaction] returns is decided by the long-term
    write alone. *)
Lemma add_interaction_value n c now_w now_l sid role x p md s :
  (add_interaction get_embedding n c now_w now_l sid role x p md s).1
  = if durable p
    then bool_decide
           (is_Some (long_term_write get_embedding now_l sid role x p md s))
    else true.
Proof.
  unfold add_interaction, long_term_write.
  destruct (WorkingMemory.add_context _ _ _ _ _ _ _ _) as [[b c'] db].
  destruct (durable p); [|done].
  destruct (alloc _ _) as [meta h1].
  by destruct (add_memory _ _ _ _ _ _) as [[[i|] h2] l].
Qed.

(** The long-term write of [add_interaction] raises exactly when the
    embedder raises or the index refuses the vector. *)
Lemma long_term_write_raises now_l sid role x p md s :
  long_term_write get_embedding now_l sid role x p md s = None
  ↔ match get_embedding x with
    | Some v => Z.of_nat (length v) ≠ d (index (long_term_memory s))
    | None => True
    end.
Proof.
  unfold long_term_write, alloc, add_memory, index_add.
  destruct (get_embedding x) as [v|]; [|done].
  case_bool_decide; simpl; [|done].
  split; [|done].
  by destruct (negb _).
Qed.

(** C1, as amended.  [add_interaction] returns one boolean.  When the
    priority is HIGH or CRITICAL and the long-term write raises, it returns
    [False], whatever became of the working-memory write; when the
    working-memory write returned [True] and the long-term write was not
    required or returned an id, it returns [True]. *)
Theorem add_interaction_reports (n : Z) (c : Redis.conn)
    (now_w now_l sid role x : string) (p : MemoryPriority)
    (md : option loc) (s : @MemoryManager.t scalar) :
  (durable p = true →
   long_term_write get_embedding now_l sid role x p md s = None →
   (add_interaction get_embedding n c now_w now_l sid role x p md s).1
   = false)
  ∧ (working_write n c now_w sid role x md s = Some true →
     durable p = false
     ∨ is_Some (long_term_write get_embedding now_l sid role x p md s) →
     (add_interaction get_embedding n c now_w now_l sid role x p md s).1
     = true).
Proof.
  rewrite add_interaction_value. split.
  - intros -> ->. case_bool_decide as H; [by destruct H|done].
  - intros _ [->|H]; [done|]. destruct (durable p); [|done].
    by rewrite bool_decide_true.
Qed.

(** Without a durable priority the long-term store and the heap are not
    touched. *)
Lemma add_interaction_transient n c now_w now_l sid role x p md s :
  durable p = false →
  long_term_memory
    (add_interaction get_embedding n c now_w now_l sid role x p md s).2
  = long_term_memory s
  ∧ objects
      (add_interaction get_embedding n c now_w now_l sid role x p md s).2
    = objects s.
Proof.
  intros Hp. unfold add_interaction.
  destruct (WorkingMemory.add_context _ _ _ _ _ _ _ _) as [[b c'] db].
  by rewrite Hp.
Qed.

(** With a durable priority, a call that returns [True] has put one record
    under the counter's value, with the merged metadata in a dictionary of
    its own. *)
Lemma add_interaction_durable n c now_w now_l sid role x p md s :
  durable p = true →
  (add_interaction get_embedding n c now_w now_l sid role x p md s).1 = true →
  ∃ m,
    id_to_memory
      (long_term_memory
         (add_interaction get_embedding n c now_w now_l sid role x p md s).2)
    = <[next_id (long_term_memory s) := m]> (id_to_memory (long_term_memory s))
    ∧ text m = x
    ∧ id m = next_id (long_term_memory s)
    ∧ metadata m = length (objects s)
    ∧ deref
        (objects
           (add_interaction get_embedding n c now_w now_l sid role x p md s).2)
        (metadata m)
      = interaction_meta sid role p (objects s) md.
Proof.
  intros Hp. unfold add_interaction.
  destruct (WorkingMemory.add_context _ _ _ _ _ _ _ _) as [[b c'] db].
  rewrite Hp.
  pose proof (deref_alloc (interaction_meta sid role p (objects s) md)
                (objects s)) as Hd.
  destruct (alloc _ _) as [meta h1] eqn:Ea. simpl in Hd.
  destruct (add_memory _ _ _ _ _ _) as [[[i|] h2] l] eqn:E; [|done].
  intros _. simpl.
  apply add_memory_returns in E
    as (_ & _ & _ & _ & m & Ht & Hx & Hi & _ & _ & _ & Hkeep & _).
  destruct (Hkeep (interaction_meta_truthy _ _ _ _ _ _ _ Hd))
    as [[= Hmeta] ->].
  exists m. injection Ea as <- <-. rewrite <- Hmeta. auto.
Qed.

End Embedder.

(** C6, as amended.  In any state a long-term store reaches from a fresh
    one, [add_interaction] with priority LOW or MEDIUM leaves what
    [get_stats] reports as it was, and with priority HIGH or CRITICAL a
    call that returns [True] adds exactly one record, so that
    [total_memories] is one more whenever [get_stats] returns: the new
    record sits under the id the counter held, its text is the content, and
    its metadata is the caller's entries merged over the dictionary
    [session_id], [role], [priority], [type = "interaction"]; each of
    these four keys holds that tag unless the caller's metadata has the
    key, whose value then stays. *)
Theorem priority_routing {scalar : Type}
    (get_embedding : string → option (list scalar))
    (int : string → option Z) (dim : Z) (os : list (@op scalar)) (h0 : heap)
    (db : Redis.db) (n : Z) (c : Redis.conn)
    (now_w now_l sid role x : string) (p : MemoryPriority)
    (md : option loc) :
  let before :=
    {| objects := (exec get_embedding int os h0 (init dim)).1;
       redis := db;
       long_term_memory := (exec get_embedding int os h0 (init dim)).2 |} in
  let after :=
    add_interaction get_embedding n c now_w now_l sid role x p md before in
  let caller := from_option (deref (objects before)) ∅ md in
  (p = LOW ∨ p = MEDIUM →
   get_stats (objects after.2) (long_term_memory after.2)
   = get_stats (objects before) (long_term_memory before))
  ∧ (p = HIGH ∨ p = CRITICAL → after.1 = true →
     (∀ st', get_stats (objects after.2) (long_term_memory after.2)
             = Some st' →
        total_memories st'
        = Z.of_nat (size (id_to_memory (long_term_memory before))) + 1
        ∧ ∀ st, get_stats (objects before) (long_term_memory before)
                = Some st →
            total_memories st' = total_memories st + 1)
     ∧ (get_stats (objects after.2) (long_term_memory after.2) = None
        ↔ ∃ k m, get_memory k (long_term_memory after.2) = Some m
                 ∧ Py.hashable (type_of (objects after.2) m) = false)
     ∧ get_memory (next_id (long_term_memory before))
         (long_term_memory before) = None
     ∧ ∃ m,
         get_memory (next_id (long_term_memory before))
           (long_term_memory after.2) = Some m
         ∧ text m = x
         ∧ deref (objects after.2) (metadata m)
           = caller ∪ tags sid role p
         ∧ (∀ k v, caller !! k = Some v →
              deref (objects after.2) (metadata m) !! k = Some v)
         ∧ (∀ k, caller !! k = None →
              deref (objects after.2) (metadata m) !! k
              = tags sid role p !! k)
         ∧ deref (objects after.2) (metadata m) !! "session_id"
           = Some (default (Py.VStr sid) (caller !! "session_id"))
         ∧ deref (objects after.2) (metadata m) !! "role"
           = Some (default (Py.VStr role) (caller !! "role"))
         ∧ deref (objects after.2) (metadata m) !! "priority"
           = Some (default (Py.VStr (name p)) (caller !! "priority"))
         ∧ deref (objects after.2) (metadata m) !! "type"
           = Some (default (Py.VStr "interaction") (caller !! "type"))).
Proof.
  intros before after caller.
  assert (bounded (long_term_memory before)) as Hb
    by apply exec_bounded, init_bounded.
  split.
  - intros Hp. unfold after.
    destruct (add_interaction_transient get_embedding n c now_w now_l
                sid role x p md before) as [-> ->]; [|done].
    by destruct Hp as [-> | ->].
  - intros Hp Hok.
    destruct (add_interaction_durable get_embedding n c now_w now_l
                sid role x p md before) as (m & Ht & Hx & _ & _ & Hd);
      [by destruct Hp as [-> | ->] | done |].
    fold after in Ht, Hd. pose proof (bounded_fresh _ Hb) as Hfresh.
    split; [|split; [apply get_stats_None|split; [done|]]].
    + intros st' (Hst' & _)%get_stats_Some.
      rewrite Hst', Ht, map_size_insert_None by exact Hfresh.
      split; [lia|]. intros st (Hst & _)%get_stats_Some. rewrite Hst. lia.
    + exists m. unfold get_memory. rewrite Ht, lookup_insert_eq, Hd.
      fold (interaction_meta sid role p (objects before) md).
      split; [done|]. split; [done|]. split; [done|].
      split; [|split].
      * intros k v Hk. rewrite interaction_meta_lookup. fold caller.
        by rewrite Hk.
      * intros k Hk. rewrite interaction_meta_lookup. fold caller.
        by rewrite Hk.
      * rewrite !interaction_meta_lookup. fold caller.
        destruct (tags_lookup sid role p) as (-> & -> & -> & ->).
        by destruct (caller !! "session_id"), (caller !! "role"),
             (caller !! "priority"), (caller !! "type").
Qed.

Lemma priority_routing_witness :
  (total_memories
     <$> get_stats (objects busy) (long_term_memory busy)) = Some 2
  ∧ (total_memories
       <$> get_stats
             (objects (add_interaction embed2 10 None "t2" "t3"
                         "s1" "user" "hello" LOW (Some 2%nat) busy).2)
             (long_term_memory
                (add_interaction embed2 10 None "t2" "t3"
                   "s1" "user" "hello" LOW (Some 2%nat) busy).2)) = Some 2
  ∧ (add_interaction embed2 10 None "t2" "t3"
       "s1" "user" "hello" HIGH None busy).1 = true
  ∧ (total_memories
       <$> get_stats
             (objects (add_interaction embed2 10 None "t2" "t3"
                         "s1" "user" "hello" HIGH None busy).2)
             (long_term_memory
                (add_interaction embed2 10 None "t2" "t3"
                   "s1" "user" "hello" HIGH None busy).2)) = Some (2 + 1).
Proof.
  pose proof (priority_routing embed2 decimal 2 busy_ops [] Redis.empty
                10 None "t2" "t3" "s1" "user" "hello") as H.
  split; [by vm_compute|]. split; [|split; [done|]].
  - destruct (H LOW (Some 2%nat)) as [H1 _].
    etrans; [exact (f_equal (fmap total_memories) (H1 (or_introl eq_refl)))|].
    by vm_compute.
  - destruct (H HIGH None) as [_ H2].
    destruct (H2 (or_introl eq_refl) eq_refl) as (Hst & _).
    destruct (get_stats _ _) as [st'|] eqn:E; [|by vm_compute in E].
    destruct (Hst st' eq_refl) as [Hn _]. simpl. f_equal.
    etrans; [exact Hn|]. by vm_compute.
Defined.

(** C6 as stated fails: the caller's metadata has a ["type"] of its own,
    the literal spreads the caller's entries last, and the record of a
    successful HIGH call carries the caller's type, not
    ["interaction"]. *)
Lemma priority_routing_caller_type_wins :
  deref (objects busy) 2%nat !! "type" = Some (Py.VStr "note")
  ∧ (add_interaction embed2 10 None "t2" "t3"
       "s1" "user" "hello" HIGH (Some 2%nat) busy).1 = true
  ∧ ∃ m,
      get_memory 2
        (long_term_memory
           (add_interaction embed2 10 None "t2" "t3"
              "s1" "user" "hello" HIGH (Some 2%nat) busy).2) = Some m
      ∧ deref (objects (add_interaction embed2 10 None "t2" "t3"
                          "s1" "user" "hello" HIGH (Some 2%nat) busy).2)
              (metadata m) !! "type" = Some (Py.VStr "note")
      ∧ deref (objects (add_interaction embed2 10 None "t2" "t3"
                          "s1" "user" "hello" HIGH (Some 2%nat) busy).2)
              (metadata m) !! "type" ≠ Some (Py.VStr "interaction").
Proof.
  split; [by vm_compute|]. split; [by vm_compute|].
  exists {| text := "hello"; metadata := 3%nat; created_at := "t3";
            id := 2; updated_at := None; deleted_at := None |}.
  split; [by vm_compute|]. split; [by vm_compute|].
  vm_compute. intros H. discriminate H.
Qed.

(** C1 as stated fails.  With the store unreachable the working-memory
    write returns [False], yet a LOW-priority call returns [True]; and with
    a long-term write that raises, the call returns the same [False]
    whether the working-memory write succeeded or not. *)
Lemma add_interaction_hides_working_write :
  working_write 10 (Some 0%nat) "t2" "s1" "user" "hello" None busy
  = Some false
  ∧ (add_interaction embed2 10 (Some 0%nat) "t2" "t3"
       "s1" "user" "hello" LOW None busy).1 = true
  ∧ working_write 10 None "t2" "s1" "user" "" None busy = Some true
  ∧ working_write 10 (Some 0%nat) "t2" "s1" "user" "" None busy = Some false
  ∧ (add_interaction embed2 10 None "t2" "t3"
       "s1" "user" "" HIGH None busy).1
    = (add_interaction embed2 10 (Some 0%nat) "t2" "t3"
         "s1" "user" "" HIGH None busy).1.
Proof. repeat split; by vm_compute. Qed.

Lemma add_interaction_reports_witness :
  (add_interaction embed2 10 None "t2" "t3"
     "s1" "user" "" CRITICAL None busy).1 = false
  ∧ (add_interaction embed2 10 None "t2" "t3"
       "s1" "user" "hello" CRITICAL None busy).1 = true.
Proof.
  split.
  - apply (add_interaction_reports embed2 10 None
             "t2" "t3" "s1" "user" "" CRITICAL None busy); done.
  - apply (add_interaction_reports embed2 10 None
             "t2" "t3" "s1" "user" "hello" CRITICAL None busy);
      [done | right; by eexists].
Defined.

(** *** Further operations *)

Lemma length_append (a b : string) :
  String.length (a +:+ b) = (String.length a + String.length b)%nat.
Proof. induction a as [|ch a IH]; simpl; [done|]. by rewrite IH. Qed.

Lemma length_substring_0 (m : nat) (x : string) :
  String.length (String.substring 0 m x) = Nat.min m (String.length x).
Proof.
  revert m. induction x as [|ch x IH]; intros [|m]; simpl; try done.
  by rewrite IH.
Qed.

Lemma length_truncate (m : Z) (x : string) :
  0 ≤ m → Z.of_nat (String.length (truncate m x)) ≤ m + 20.
Proof.
  intros Hm. unfold truncate. rewrite Z.gtb_ltb.
  destruct (Z.ltb_spec m (Z.of_nat (String.length x))) as [Hlt|Hge]; [|lia].
  unfold str_slice_to, Py.adjust. rewrite length_append, length_substring_0.
  destruct (Z.ltb_spec m 0) as [?|_]; [lia|].
  change (String.length truncated_mark) with 20%nat. lia.
Qed.

Lemma fact_meta_lookup u tg p :
  fact_meta u tg p !! "type" = Some (Py.VStr "fact")
  ∧ fact_meta u tg p !! "user_id" = Some (from_option Py.VStr Py.VNone u)
  ∧ fact_meta u tg p !! "tags" = Some (Py.VList (default [] tg))
  ∧ fact_meta u tg p !! "priority" = Some (Py.VStr (name p)).
Proof. done. Qed.

Lemma clear_memory_read sid sid' c db :
  WorkingMemory.read sid' (WorkingMemory.clear_memory sid c db).2
  = WorkingMemory.read sid' db.
Proof.
  rewrite !WorkingMemoryFacts.read_stored.
  unfold WorkingMemory.clear_memory, Redis.try, mbind,
    WorkingMemory.client_bind, Redis.bind, Redis.delete, Redis.command,
    Redis.stored.
  destruct c as [[|j]|]; simpl; try done;
    by rewrite lookup_delete_ne
      by (symmetry; apply WorkingMemoryFacts.key_of_clear_key_of).
Qed.

Section Context.

Context {scalar number : Type}.
Variable get_embedding : string → option (list scalar).
Variable fone : number.
Variable fadd fdiv : number → number → number.
Variable search :
  @LongTermMemory.Index scalar → list scalar → Z → option (list (Z * number)).
Variable upper : string → string.
Variable format_value : Py.value → string.
Variable format_2f : number → string.

Implicit Types (s : @MemoryManager.t scalar).

(** X14.  [add_fact] never touches the working memory and changes no
    dictionary that existed.  When it returns an id, the id is the one the
    counter held and [get_memory] on it gives a record with the fact's
    text and a metadata dictionary of its own holding [type = "fact"],
    the user id ([None] when there is none), the tags (the empty list
    when there are none) and the name of the priority.  When it raises, the
    long-term store is as it was. *)
Theorem add_fact_record now x u tg p s :
  redis (add_fact get_embedding now x u tg p s).2 = redis s
  ∧ (∀ l, (l < length (objects s))%nat →
       deref (objects (add_fact get_embedding now x u tg p s).2) l
       = deref (objects s) l)
  ∧ match (add_fact get_embedding now x u tg p s).1 with
    | Some i =>
        i = next_id (long_term_memory s)
        ∧ ∃ m,
            get_memory i
              (long_term_memory (add_fact get_embedding now x u tg p s).2)
            = Some m
            ∧ view (objects (add_fact get_embedding now x u tg p s).2) m
              = {| s_text := x; s_metadata := fact_meta u tg p;
                   s_created_at := now; s_id := i;
                   s_updated_at := None; s_deleted_at := None |}
            ∧ metadata m = length (objects s)
            ∧ type_of (objects (add_fact get_embedding now x u tg p s).2) m
              = Py.VStr "fact"
    | None =>
        long_term_memory (add_fact get_embedding now x u tg p s).2
        = long_term_memory s
    end.
Proof.
  unfold add_fact.
  pose proof (deref_alloc (fact_meta u tg p) (objects s)) as Hd.
  destruct (alloc _ _) as [meta h1] eqn:Ea. simpl in Hd.
  assert (truthy h1 (Some meta) = true) as Htr.
  { unfold truthy. rewrite Hd. case_bool_decide as H; [|done].
    apply (f_equal (λ d, d !! "type")) in H. by rewrite lookup_empty in H. }
  injection Ea as <- <-.
  destruct (add_memory _ _ _ _ _ _) as [[[i|] h2] l] eqn:E; simpl.
  - apply add_memory_returns in E
      as (-> & _ & _ & _ & m & Ht & Hx & Hi & Hc & Hu & Hdl & Hkeep & _).
    destruct (Hkeep Htr) as [[= Hmeta] ->].
    split; [done|]. split.
    { intros l0 Hl. unfold deref. by rewrite lookup_app_l. }
    split; [done|]. exists m. unfold get_memory. rewrite Ht, lookup_insert_eq.
    split; [done|].
    assert (deref (objects s ++ [fact_meta u tg p]) (metadata m)
            = fact_meta u tg p) as Hdm by (by rewrite <- Hmeta).
    split; [|split; [done|]].
    + unfold view. by rewrite Hx, Hi, Hc, Hu, Hdl, Hdm.
    + unfold type_of. by rewrite Hdm.
  - apply add_memory_raises in E as [-> ->].
    split; [done|]. split; [|done].
    intros l0 Hl. unfold deref. by rewrite lookup_app_l.
Qed.

(** X15.  [clear_session] returns [True] whatever happens, also when the
    store does not answer, and it leaves every conversation readable:
    [get_context] returns for every session, the one cleared included, what
    it returned before.  The long-term store and the dictionaries are not
    touched. *)
Theorem clear_session_keeps_context c sid s :
  (clear_session c sid s).1 = true
  ∧ (∀ sid', WorkingMemory.read sid' (redis (clear_session c sid s).2)
             = WorkingMemory.read sid' (redis s))
  ∧ long_term_memory (clear_session c sid s).2 = long_term_memory s
  ∧ objects (clear_session c sid s).2 = objects s.
Proof.
  unfold clear_session.
  pose proof (λ sid', clear_memory_read sid sid' c (redis s)) as H.
  destruct (WorkingMemory.clear_memory sid c (redis s)) as [[b c'] db].
  done.
Qed.

(** X16.  The working-memory write of [add_interaction] does not depend
    on the priority or on what becomes of the long-term write: the store is
    left as [add_context] leaves it.  On a store that answers, with a
    window of at least 1, the last turn [get_context] returns afterwards is
    the one just added, with the contents of the caller's metadata, also
    when the call returns [False]. *)
Theorem add_interaction_keeps_turn n now_w now_l sid role x p md s :
  1 ≤ n →
  (∀ c, redis (add_interaction get_embedding n c now_w now_l sid role x p
                 md s).2
        = (WorkingMemory.add_context n now_w sid role x
             (deref (objects s) <$> md) c (redis s)).2)
  ∧ last (WorkingMemory.read sid
            (redis (add_interaction get_embedding n None now_w now_l sid
                      role x p md s).2))
    = Some {| Redis.role := role; Redis.content := x;
              Redis.timestamp := now_w;
              Redis.metadata := from_option (deref (objects s)) ∅ md |}.
Proof.
  intros Hn.
  assert (∀ c, redis (add_interaction get_embedding n c now_w now_l sid role
                        x p md s).2
               = (WorkingMemory.add_context n now_w sid role x
                    (deref (objects s) <$> md) c (redis s)).2) as Hr.
  { intros c. unfold add_interaction.
    destruct (WorkingMemory.add_context _ _ _ _ _ _ _ _) as [[b c'] db].
    destruct (durable p); [|done].
    destruct (alloc _ _) as [meta h1].
    by destruct (add_memory _ _ _ _ _ _) as [[[i|] h2] l]. }
  split; [done|]. rewrite Hr, WorkingMemoryFacts.read_stored.
  pose proof (WorkingMemoryFacts.add_context_up n now_w sid role x
                (deref (objects s) <$> md) (redis s)) as Hup.
  destruct (WorkingMemory.add_context _ _ _ _ _ _ _ _) as [[b c'] db] eqn:E.
  simpl in Hup. subst b. cbn [snd].
  apply WorkingMemoryFacts.add_context_true in E as [-> _].
  rewrite WorkingMemoryFacts.window_last_n by done.
  unfold Py.last_n. rewrite length_app. simpl.
  replace (length (Redis.stored (redis s) (WorkingMemory.key_of sid)) + 1
           - Z.to_nat n)%nat
    with (length (Redis.stored (redis s) (WorkingMemory.key_of sid))
          - (Z.to_nat n - 1))%nat by lia.
  rewrite drop_app_le by lia. rewrite last_snoc.
  f_equal. f_equal. by destruct md.
Qed.

(** X17.  For a token budget that is not negative, the text
    [get_agent_context] returns has at most [4 * context_max_tokens + 20]
    characters: the budget in characters and the mark of a cut. *)
Theorem agent_context_bounded k mt c sid q inc s :
  0 ≤ mt →
  Z.of_nat (String.length
              (get_agent_context get_embedding fone fadd fdiv search upper
                 format_value format_2f k mt c sid q inc s))
  ≤ 4 * mt + 20.
Proof.
  intros Hmt. unfold get_agent_context.
  destruct (WorkingMemory.get_context sid c (redis s)).1.1 as [ctx|];
    [|simpl; lia].
  cbv zeta. etransitivity; [apply length_truncate; lia|lia].
Qed.

Lemma join_cons sep (x y : string) rest :
  WorkingMemory.join sep (x :: y :: rest)
  = x +:+ sep +:+ WorkingMemory.join sep (y :: rest).
Proof. done. Qed.

(** X18.  Without a query (or with [include_long_term] off) the
    long-term store is not consulted: when the budget is not exceeded the
    text is the heading ["=== Recent Conversation ==="] and a line break
    followed by what [get_context_text] returns for the session, and it is
    empty when [get_context_text] is empty. *)
Theorem agent_context_without_query k mt c sid (q : option string)
    (inc : bool) s :
  (if inc then text_given q else None) = None →
  Z.of_nat (String.length
              (default ""
                 (WorkingMemory.get_context_text upper sid c (redis s)).1.1))
  + 28 ≤ mt * 4 →
  get_agent_context get_embedding fone fadd fdiv search upper
    format_value format_2f k mt c sid q inc s
  = if decide (default ""
                 (WorkingMemory.get_context_text upper sid c (redis s)).1.1
               = "")
    then ""
    else "=== Recent Conversation ===" +:+ WorkingMemory.newline
         +:+ default ""
               (WorkingMemory.get_context_text upper sid c (redis s)).1.1.
Proof.
  intros Hq.
  set (ctx := if bool_decide (c = Some 0%nat) then []
              else Redis.stored (redis s) (WorkingMemory.key_of sid)).
  assert (default ""
            (WorkingMemory.get_context_text upper sid c (redis s)).1.1
          = WorkingMemory.join WorkingMemory.newline
              (WorkingMemory.line_of upper <$> ctx)) as ->.
  { unfold WorkingMemory.get_context_text, mbind, WorkingMemory.client_bind,
      Redis.bind.
    rewrite WorkingMemoryFacts.get_context_value. fold ctx.
    by destruct ctx. }
  unfold get_agent_context, knowledge_part.
  rewrite Hq, WorkingMemoryFacts.get_context_value. cbn [fst snd].
  fold ctx. clearbody ctx. rewrite app_nil_r.
  destruct ctx as [|t ctx].
  - intros Hlen. simpl in Hlen. unfold truncate. rewrite Z.gtb_ltb.
    destruct (Z.ltb_spec (mt * 4)
                (Z.of_nat
                   (String.length
                      (WorkingMemory.join WorkingMemory.newline
                         (conversation_part upper [])))))
      as [Hlt|_]; [simpl in Hlt; lia|done].
  - cbn [conversation_part]. rewrite fmap_cons, join_cons.
    rewrite <- fmap_cons.
    set (text := WorkingMemory.join WorkingMemory.newline
                   (WorkingMemory.line_of upper <$> t :: ctx)).
    intros Hlen. rewrite decide_False.
    + unfold truncate. rewrite !length_append. rewrite Z.gtb_ltb.
      destruct (Z.ltb_spec (mt * 4)
                  (Z.of_nat
                     (String.length "=== Recent Conversation ==="
                      + (String.length WorkingMemory.newline
                         + String.length text)))) as [Hlt|_]; [|done].
      simpl in Hlt. lia.
    + intros E. apply WorkingMemoryFacts.join_nil in E; [done|].
      apply Forall_fmap, Forall_forall. intros ? _.
      apply WorkingMemoryFacts.line_of_nonempty.
Qed.

End Context.

Lemma add_interaction_keeps_turn_witness :
  (add_interaction embed2 2 None "10:00" "10:01" "s1" "user" "" HIGH
     (Some 2%nat) busy).1 = false
  ∧ last (WorkingMemory.read "s1"
            (redis (add_interaction embed2 2 None "10:00" "10:01" "s1"
                      "user" "" HIGH (Some 2%nat) busy).2))
    = Some {| Redis.role := "user"; Redis.content := "";
              Redis.timestamp := "10:00";
              Redis.metadata :=
                from_option (deref (objects busy)) ∅ (Some 2%nat) |}.
Proof.
  split; [by vm_compute|].
  apply (add_interaction_keeps_turn embed2 2 "10:00" "10:01" "s1" "user" ""
           HIGH (Some 2%nat) busy).
  lia.
Defined.

Lemma agent_context_bounded_witness :
  Z.of_nat (String.length
              (get_agent_context embed2 1 Z.add Z.div scan ascii_upper
                 show pretty 2 5 None "s1" (Some "ab") true chatty))
  ≤ 4 * 5 + 20.
Proof.
  apply (agent_context_bounded embed2 1 Z.add Z.div scan ascii_upper show
           pretty 2 5 None "s1" (Some "ab") true chatty).
  lia.
Defined.

Lemma agent_context_without_query_witness :
  get_agent_context embed2 1 Z.add Z.div scan ascii_upper show pretty
    2 100 None "s1" None true chatty
  = "=== Recent Conversation ===" +:+ WorkingMemory.newline
    +:+ "AGENT: b" +:+ WorkingMemory.newline +:+ "USER: c".
Proof.
  rewrite (agent_context_without_query embed2 1 Z.add Z.div scan ascii_upper
             show pretty 2 100 None "s1" None true chatty).
  - by vm_compute.
  - reflexivity.
  - by vm_compute.
Defined.

End MemoryManagerFacts.

(** ** Summarizer *)

Module MemorySummarizerFacts.
Import MemorySummarizer.

(** *** The longest text *)

Lemma longest_of_spec (first : str) (rest : list str) :
  longest_of first rest ∈ first :: rest
  ∧ ∀ x, x ∈ first :: rest → len x ≤ len (longest_of first rest).
Proof.
  unfold longest_of. revert first.
  induction rest as [|y rest IH]; intros first; simpl.
  - split; [by apply list_elem_of_here|].
    intros x Hx%list_elem_of_singleton. subst. lia.
  - destruct (Z.gtb_spec (len y) (len first)) as [Hgt|Hle];
      destruct (IH (if len y >? len first then y else first)) as [Hin Hmax];
      destruct (Z.gtb_spec (len y) (len first)) as [?|?]; try lia.
    + split.
      * apply list_elem_of_further. exact Hin.
      * intros x [->|Hx]%elem_of_cons.
        -- specialize (Hmax y (list_elem_of_here _ _)). lia.
        -- by apply Hmax.
    + split.
      * apply elem_of_cons in Hin as [->|Hin];
          [by apply list_elem_of_here|].
        by do 2 apply list_elem_of_further.
      * intros x [->|[->|Hx]%elem_of_cons]%elem_of_cons.
        -- by apply Hmax, list_elem_of_here.
        -- specialize (Hmax first (list_elem_of_here _ _)). lia.
        -- by apply Hmax, list_elem_of_further.
Qed.

(** The texts before it are strictly shorter. *)
Lemma longest_of_first (first : str) (rest : list str) :
  ∃ before after,
    first :: rest = before ++ longest_of first rest :: after
    ∧ ∀ x, x ∈ before → len x < len (longest_of first rest).
Proof.
  unfold longest_of. revert first.
  induction rest as [|y rest IH]; intros first; simpl.
  - exists [], []. split; [done|]. by intros x Hx%elem_of_nil.
  - destruct (IH (if len y >? len first then y else first))
      as (before & after & Heq & Hlt).
    pose proof (longest_of_spec (if len y >? len first then y else first) rest)
      as [_ Hmax]. unfold longest_of in Hmax.
    set (L := fold_left _ rest _) in *.
    destruct (Z.gtb_spec (len y) (len first)) as [Hgt|Hle].
    + exists (first :: before), after. split; [by rewrite Heq|].
      intros x [->|Hx]%elem_of_cons; [|by apply Hlt].
      specialize (Hmax y (list_elem_of_here _ _)). lia.
    + destruct before as [|p before]; simpl in Heq.
      * injection Heq as HL Hr. exists [], (y :: after).
        split; [by rewrite <- HL, Hr|]. by intros x Hx%elem_of_nil.
      * injection Heq as <- Hr. exists (first :: y :: before), after.
        split; [by rewrite Hr|].
        pose proof (Hlt first (list_elem_of_here _ _)) as Hf.
        intros x [->|[->|Hx]%elem_of_cons]%elem_of_cons; [done|lia|].
        by apply Hlt, list_elem_of_further.
Qed.

(** *** Stripping *)

Lemma lstrip_suffix (s : str) : lstrip s `suffix_of` s.
Proof.
  induction s as [|c s IH]; simpl; [done|].
  destruct (isspace c); [by apply suffix_cons_r|done].
Qed.

Lemma rstrip_prefix (s : str) : rstrip s `prefix_of` s.
Proof.
  unfold rstrip. destruct (lstrip_suffix (reverse s)) as [k Hk].
  exists (reverse k).
  rewrite <- reverse_app, <- Hk. by rewrite reverse_involutive.
Qed.

Lemma rstrip_length (s : str) : (length (rstrip s) ≤ length s)%nat.
Proof. apply prefix_length, rstrip_prefix. Qed.

(** C8, as amended.  For a [max_length] that is not negative: on no text
    the rule-based summarizer returns the empty string; otherwise it takes
    the longest text (the first one of greatest length), returns it whole
    when it has at most [max_length] characters, and else returns its first
    [max_length] characters with trailing white space removed, followed by
    ["..."].  The result has at most [max_length + 3] characters and,
    without the marker, is a prefix of that longest text. *)
Theorem rule_based_summary (texts : list str) (max_length : Z) :
  0 ≤ max_length →
  match texts with
  | [] => rule_based texts max_length = []
  | first :: rest =>
      (∃ before after,
         texts = before ++ longest_of first rest :: after
         ∧ ∀ x, x ∈ before → len x < len (longest_of first rest))
      ∧ (∀ x, x ∈ texts → len x ≤ len (longest_of first rest))
      ∧ (len (longest_of first rest) ≤ max_length →
         rule_based texts max_length = longest_of first rest)
      ∧ (max_length < len (longest_of first rest) →
         rule_based texts max_length
         = rstrip (take (Z.to_nat max_length) (longest_of first rest))
           ++ lit "..."
         ∧ rstrip (take (Z.to_nat max_length) (longest_of first rest))
           `prefix_of` longest_of first rest)
      ∧ len (rule_based texts max_length) ≤ max_length + 3
  end.
Proof.
  intros Hml. destruct texts as [|first rest]; [done|].
  destruct (longest_of_spec first rest) as [_ Hmax].
  split; [apply longest_of_first|]. split; [done|].
  unfold rule_based. set (longest := longest_of first rest) in *.
  rewrite PyFacts.slice_to_nonneg by done.
  pose proof (rstrip_length (take (Z.to_nat max_length) longest)) as Hlen.
  rewrite length_take in Hlen.
  destruct (Z.leb_spec (len longest) max_length) as [Hle|Hgt].
  - split; [done|]. split; [lia|]. unfold len in *. lia.
  - assert ((len (rstrip (take (Z.to_nat max_length) longest)) <? len longest)
            = true) as ->
      by (apply Z.ltb_lt; unfold len in *; lia).
    split; [lia|]. split.
    + intros _. split; [done|].
      etrans; [apply rstrip_prefix | apply prefix_take].
    + unfold len in *. rewrite length_app. simpl. lia.
Qed.

Lemma rule_based_summary_witness :
  rule_based [lit "a"; lit "a much longer string exceeding the max length"]
             10
  = lit "a much lon..."
  ∧ len (rule_based
           [lit "a"; lit "a much longer string exceeding the max length"]
           10) ≤ 10 + 3.
Proof.
  split; [by vm_compute|].
  apply (rule_based_summary
           [lit "a"; lit "a much longer string exceeding the max length"]
           10).
  lia.
Defined.

(** C8 as stated fails twice.  The cut is stripped of trailing white space
    before the marker is added: ["ab cd"] cut at 3 gives ["ab..."], not
    ["ab ..."].  And a negative [max_length] cuts from the end: ["hello"]
    at -1 gives ["hell..."], seven characters where [max_length + 3]
    is 2. *)
Lemma rule_based_strips_and_counts_from_end :
  rule_based [lit "ab cd"] 3 = lit "ab..."
  ∧ rule_based [lit "ab cd"] 3 ≠ (Py.slice_to 3 (lit "ab cd") ++ lit "...")
  ∧ rule_based [lit "hello"] (-1) = lit "hell..."
  ∧ ¬ (len (rule_based [lit "hello"] (-1)) ≤ -1 + 3).
Proof.
  split; [by vm_compute|]. split; [by vm_compute|].
  split; [by vm_compute|]. by vm_compute.
Qed.

(** *** [summarize_memories] *)

Lemma texts_of_length (memories : list memory) :
  length (texts_of memories) = length (filter (λ m, has_text m = true) memories).
Proof.
  unfold texts_of. induction memories as [|m ms IH]; [done|].
  rewrite filter_cons. simpl.
  destruct (decide (has_text m = true)) as [H|H]; unfold has_text in H;
    destruct (m_text m) as [[|c x]|]; simpl; try done.
  f_equal. exact IH.
Qed.

Lemma ids_of_spec (memories : list memory) (i : Z) :
  i ∈ ids_of memories ↔ ∃ m, m ∈ memories ∧ m_id m = Some i.
Proof. unfold ids_of. apply list_elem_of_omap. Qed.

(** C10.  On an empty list [summarize_memories] returns an empty summary
    with [source_count] 0 and no [source_ids] and leaves the history as it
    was.  On a list that is not empty it appends exactly one entry, the
    result it returns, to the history; [source_count] is the number of
    records with a non-empty text, while [source_ids] holds, in order, the
    id of every record that has one, with or without text. *)
Theorem summarize_memories_history (now : string) (memories : list memory)
    (max_length : Z) (topic : string) (s : t) :
  (memories = [] →
   (summarize_memories now memories max_length topic s).1
   = {| summary := []; source_count := 0; source_ids := [];
        created_at := now; topic := topic; original_length := None |}
   ∧ (summarize_memories now memories max_length topic s).2 = s)
  ∧ (memories ≠ [] →
     summary_history (summarize_memories now memories max_length topic s).2
     = summary_history s
       ++ [(summarize_memories now memories max_length topic s).1]
     ∧ strategy (summarize_memories now memories max_length topic s).2
       = strategy s
     ∧ source_count (summarize_memories now memories max_length topic s).1
       = Z.of_nat (length (filter (λ m, has_text m = true) memories))
     ∧ source_ids (summarize_memories now memories max_length topic s).1
       = omap m_id memories
     ∧ (∀ m i, m ∈ memories → m_id m = Some i →
          i ∈ source_ids
                (summarize_memories now memories max_length topic s).1)).
Proof.
  split.
  - by intros ->.
  - intros Hne. destruct memories as [|m ms]; [done|].
    unfold summarize_memories.
    cbn [fst snd summary_history strategy source_count source_ids].
    split; [done|]. split; [done|].
    split; [by rewrite texts_of_length|]. split; [done|].
    intros m' i Hm Hi. apply ids_of_spec. eauto.
Qed.

Lemma summarize_memories_history_witness :
  source_count
    (summarize_memories "t0"
       [ {| m_text := Some (lit "tea at four"); m_id := Some 7 |};
         {| m_text := Some []; m_id := Some 8 |};
         {| m_text := None; m_id := None |} ]
       200 "general"
       {| strategy := RuleBasedSummarizer; summary_history := [] |}).1 = 1
  ∧ source_ids
      (summarize_memories "t0"
         [ {| m_text := Some (lit "tea at four"); m_id := Some 7 |};
           {| m_text := Some []; m_id := Some 8 |};
           {| m_text := None; m_id := None |} ]
         200 "general"
         {| strategy := RuleBasedSummarizer; summary_history := [] |}).1
    = [7; 8].
Proof.
  pose proof (summarize_memories_history "t0"
                [ {| m_text := Some (lit "tea at four"); m_id := Some 7 |};
                  {| m_text := Some []; m_id := Some 8 |};
                  {| m_text := None; m_id := None |} ]
                200 "general"
                {| strategy := RuleBasedSummarizer; summary_history := [] |})
    as [_ H].
  destruct H as (_ & _ & Hc & Hi & _); [done|].
  split; [exact Hc | exact Hi].
Defined.

(** *** Further operations *)

Lemma lstrip_head (s : str) c rest : lstrip s = c :: rest → isspace c = false.
Proof.
  induction s as [|a s IH]; simpl; [done|].
  destruct (isspace a) eqn:Ea; [done|]. by intros [= <- _].
Qed.

Lemma rstrip_last (s : str) c init :
  rstrip s = init ++ [c] → isspace c = false.
Proof.
  unfold rstrip. intros E. apply (f_equal reverse) in E.
  rewrite reverse_involutive, reverse_app in E. simpl in E.
  by apply lstrip_head in E.
Qed.

(** [str.strip] leaves no white space at either end. *)
Lemma strip_clean (s : str) :
  (∀ c rest, strip s = c :: rest → isspace c = false)
  ∧ (∀ c init, strip s = init ++ [c] → isspace c = false).
Proof.
  split.
  - intros c rest E. destruct (rstrip_prefix (lstrip s)) as [k Hk].
    fold (strip s) in Hk. rewrite E in Hk. by apply lstrip_head in Hk.
  - intros c init E. by apply rstrip_last in E.
Qed.

(** X19.  Every strategy answers.  With no text it answers the empty
    string.  The LLM and the MiniLM strategies answer as the rule-based one
    whenever their backend is missing or raises, and the MiniLM one also
    whenever the joined texts have fewer than 50 characters.  In every
    other case, that is, with at least one text, a backend that answers
    and, for MiniLM, at least 50 characters of joined text, they return what
    the backend said for the texts joined by line breaks, stripped, so with
    no white space left at either end. *)
Theorem summarize_falls_back (st : SummarizerStrategy) (texts : list str)
    (max_length : Z) :
  summarize st [] max_length = []
  ∧ (∀ client,
       st = LLMSummarizer client ∨ st = MiniLMSummarizer client →
       (client ≫= λ ask, ask (join newline texts) max_length) = None →
       summarize st texts max_length = rule_based texts max_length)
  ∧ (∀ client,
       st = MiniLMSummarizer client → len (join newline texts) < 50 →
       summarize st texts max_length = rule_based texts max_length)
  ∧ (∀ ask answer,
       texts ≠ [] →
       ask (join newline texts) max_length = Some answer →
       st = LLMSummarizer (Some ask)
       ∨ st = MiniLMSummarizer (Some ask)
         ∧ 50 ≤ len (join newline texts) →
       summarize st texts max_length = strip answer
       ∧ (∀ c rest, summarize st texts max_length = c :: rest →
            isspace c = false)
       ∧ (∀ c init, summarize st texts max_length = init ++ [c] →
            isspace c = false)).
Proof.
  split; [by destruct st as [|[ask|]|[ask|]]|]. split; [|split].
  - intros client [->| ->] H; destruct client as [ask|]; simpl in *;
      destruct texts as [|x texts]; try done.
    + by rewrite H.
    + destruct (_ <? 50); [done|]. by rewrite H.
  - intros client -> Hlen. destruct client as [ask|], texts as [|x texts];
      cbn [summarize]; try done.
    by destruct (Z.ltb_spec (len (join newline (x :: texts))) 50); [|lia].
  - intros ask answer Ht Ha Hst.
    assert (summarize st texts max_length = strip answer) as ->.
    { destruct texts as [|x texts]; [done|].
      destruct Hst as [->|[-> Hlen]]; cbn [summarize].
      - by rewrite Ha.
      - destruct (Z.ltb_spec (len (join newline (x :: texts))) 50); [lia|].
        by rewrite Ha. }
    split; [done|]. apply strip_clean.
Qed.

Lemma slice_from_last_n {A} (k : Z) (l : list A) :
  1 ≤ k → Py.slice_from (- k) l = Py.last_n (Z.to_nat k) l.
Proof.
  intros Hk. unfold Py.slice_from, Py.adjust, Py.last_n.
  destruct (Z.ltb_spec (- k) 0) as [_|?]; [|lia]. f_equal. lia.
Qed.

(** X20.  [get_summary_history] is the slice [history[-limit:]]: for a
    [limit] of at least 1 it is the last [limit] entries, all of them when
    there are fewer; for [limit = 0] it is the whole history, not the empty
    list; for a negative [limit] it is the history without its first
    [-limit] entries.  The history itself is not changed. *)
Theorem get_summary_history_slice (limit : Z) (s : t) :
  get_summary_history limit s
  = (if 0 <? limit
     then Py.last_n (Z.to_nat limit) (summary_history s)
     else drop (Z.to_nat (- limit)) (summary_history s))
  ∧ get_summary_history 0 s = summary_history s
  ∧ Z.of_nat (length (get_summary_history limit s))
    = (if 0 <? limit
       then Z.min limit (Z.of_nat (length (summary_history s)))
       else Z.max 0 (Z.of_nat (length (summary_history s)) + limit)).
Proof.
  assert (get_summary_history limit s
          = (if 0 <? limit
             then Py.last_n (Z.to_nat limit) (summary_history s)
             else drop (Z.to_nat (- limit)) (summary_history s))) as E.
  { unfold get_summary_history.
    destruct (Z.ltb_spec 0 limit) as [Hl|Hl].
    - apply slice_from_last_n. lia.
    - unfold Py.slice_from, Py.adjust.
      destruct (Z.ltb_spec (- limit) 0) as [?|_]; [lia|].
      destruct (Z.le_ge_cases (- limit)
                  (Z.of_nat (length (summary_history s)))) as [H|H].
      + by rewrite Z.min_l by done.
      + rewrite Z.min_r by done. rewrite Nat2Z.id.
        by rewrite !drop_ge by lia. }
  split; [done|]. split.
  { unfold get_summary_history, Py.slice_from, Py.adjust. simpl.
    by rewrite Z.min_l by lia. }
  rewrite E.
  destruct (Z.ltb_spec 0 limit) as [Hl|Hl].
  - rewrite PyFacts.length_last_n. lia.
  - rewrite length_drop. lia.
Qed.

(** X21.  After [summarize_memories] on a list that is not empty, the
    result it returned is the newest entry of the history:
    [get_summary_history(1)] is that result alone, and for every [limit] of
    at least 1 the list ends with it. *)
Theorem history_ends_with_latest (now : string) (memories : list memory)
    (max_length : Z) (topic : string) (limit : Z) (s : t) :
  memories ≠ [] → 1 ≤ limit →
  get_summary_history 1
    (summarize_memories now memories max_length topic s).2
  = [(summarize_memories now memories max_length topic s).1]
  ∧ last (get_summary_history limit
            (summarize_memories now memories max_length topic s).2)
    = Some (summarize_memories now memories max_length topic s).1.
Proof.
  intros Hm Hl. destruct memories as [|m ms]; [done|].
  unfold get_summary_history. rewrite !slice_from_last_n by lia.
  cbn [summarize_memories fst snd summary_history].
  set (r := {| summary := _ |}). set (h := summary_history s).
  unfold Py.last_n. rewrite !length_app. simpl. split.
  - replace (length h + 1 - Z.to_nat 1)%nat with (length h) by lia.
    by rewrite drop_app_length.
  - replace (length h + 1 - Z.to_nat limit)%nat
      with (length h - (Z.to_nat limit - 1))%nat by lia.
    rewrite drop_app_le by lia. apply last_snoc.
Qed.

Lemma texts_of_elem (memories : list memory) (x : str) :
  x ∈ texts_of memories ↔ x ≠ [] ∧ ∃ m, m ∈ memories ∧ m_text m = Some x.
Proof.
  unfold texts_of. rewrite list_elem_of_omap. split.
  - intros (m & Hm & E). destruct (m_text m) as [[|c y]|] eqn:Et; [done| |done].
    injection E as <-. split; [done|]. by exists m.
  - intros (Hx & m & Hm & Et). exists m. split; [done|]. rewrite Et.
    by destruct x.
Qed.

Lemma texts_of_nil (memories : list memory) :
  texts_of memories = [] ↔ Forall (λ m, has_text m = false) memories.
Proof.
  unfold texts_of, has_text. induction memories as [|m ms IH]; [done|].
  rewrite Forall_cons, <- IH. simpl.
  destruct (m_text m) as [[|c y]|]; simpl; split; try done; by intros [? ?].
Qed.

Lemma rule_based_cases (texts : list str) (max_length : Z) :
  0 ≤ max_length → texts ≠ [] →
  ∃ x, x ∈ texts
       ∧ (rule_based texts max_length = x
          ∨ ∃ p, p `prefix_of` x
                 ∧ Z.of_nat (length p) ≤ max_length
                 ∧ rule_based texts max_length = p ++ lit "...").
Proof.
  intros Hn Ht. destruct texts as [|first rest]; [done|].
  destruct (longest_of_spec first rest) as [Hin _].
  exists (longest_of first rest). split; [done|].
  unfold rule_based. set (longest := longest_of first rest) in *.
  rewrite PyFacts.slice_to_nonneg by done.
  pose proof (rstrip_length (take (Z.to_nat max_length) longest)) as Hlen.
  rewrite length_take in Hlen.
  destruct (Z.leb_spec (len longest) max_length) as [Hle|Hgt]; [by left|].
  assert ((len (rstrip (take (Z.to_nat max_length) longest)) <? len longest)
          = true) as ->
    by (apply Z.ltb_lt; unfold len in *; lia).
  right. exists (rstrip (take (Z.to_nat max_length) longest)).
  split; [|split; [lia|done]].
  etrans; [apply rstrip_prefix | apply prefix_take].
Qed.

(** X22.  [summarize_memories] under the rule-based strategy, for a
    [max_length] that is not negative: the summary has at most
    [max_length + 3] characters; it is empty exactly when no record has a
    text; otherwise it is the text of one of the records, or a prefix of
    one of at most [max_length] characters followed by ["..."]. *)
Theorem summarize_memories_rule_based (now : string)
    (memories : list memory) (max_length : Z) (topic : string) (s : t) :
  0 ≤ max_length →
  strategy s = RuleBasedSummarizer →
  len (summary (summarize_memories now memories max_length topic s).1)
  ≤ max_length + 3
  ∧ (summary (summarize_memories now memories max_length topic s).1 = []
     ↔ Forall (λ m, has_text m = false) memories)
  ∧ (summary (summarize_memories now memories max_length topic s).1 ≠ [] →
     ∃ m x,
       m ∈ memories ∧ m_text m = Some x
       ∧ (summary (summarize_memories now memories max_length topic s).1 = x
          ∨ ∃ p, p `prefix_of` x
                 ∧ Z.of_nat (length p) ≤ max_length
                 ∧ summary
                     (summarize_memories now memories max_length topic s).1
                   = p ++ lit "...")).
Proof.
  intros Hn Hs.
  assert (summary (summarize_memories now memories max_length topic s).1
          = rule_based (texts_of memories) max_length) as ->.
  { destruct memories as [|m ms]; [done|]. simpl. by rewrite Hs. }
  rewrite <- texts_of_nil.
  destruct (texts_of memories) as [|x0 xs] eqn:Et.
  { split; [simpl; unfold len; simpl; lia|]. by split. }
  destruct (rule_based_cases (x0 :: xs) max_length Hn ltac:(done))
    as (x & Hx & Hcase).
  rewrite <- Et in Hx. apply texts_of_elem in Hx as (Hne & m & Hm & Hmx).
  assert (rule_based (x0 :: xs) max_length ≠ []) as Hnot.
  { destruct Hcase as [->|(p & _ & _ & ->)]; [done|].
    intros E. apply app_eq_nil in E as [_ E]. discriminate E. }
  split; [|split].
  - destruct Hcase as [E|(p & _ & Hp & ->)].
    + revert E. unfold rule_based.
      destruct (Z.leb_spec (len (longest_of x0 xs)) max_length) as [Hle|Hgt].
      * intros <-. lia.
      * rewrite PyFacts.slice_to_nonneg by done.
        pose proof (rstrip_length
                      (take (Z.to_nat max_length) (longest_of x0 xs))) as Hl.
        rewrite length_take in Hl.
        destruct (_ <? _); intros _; unfold len in *;
          rewrite ?length_app; simpl; lia.
    + unfold len. rewrite length_app. simpl. lia.
  - split; [done|]. intros [=].
  - intros _. by exists m, x.
Qed.

Lemma history_ends_with_latest_witness :
  get_summary_history 1
    (summarize_memories "t0"
       [ {| m_text := Some (lit "tea at four"); m_id := Some 7 |} ]
       200 "general"
       {| strategy := RuleBasedSummarizer; summary_history := [] |}).2
  = [(summarize_memories "t0"
        [ {| m_text := Some (lit "tea at four"); m_id := Some 7 |} ]
        200 "general"
        {| strategy := RuleBasedSummarizer; summary_history := [] |}).1]
  ∧ last (get_summary_history 3
            (summarize_memories "t0"
               [ {| m_text := Some (lit "tea at four"); m_id := Some 7 |} ]
               200 "general"
               {| strategy := RuleBasedSummarizer;
                  summary_history := [] |}).2)
    = Some (summarize_memories "t0"
              [ {| m_text := Some (lit "tea at four"); m_id := Some 7 |} ]
              200 "general"
              {| strategy := RuleBasedSummarizer;
                 summary_history := [] |}).1.
Proof.
  apply (history_ends_with_latest "t0"
           [ {| m_text := Some (lit "tea at four"); m_id := Some 7 |} ]
           200 "general" 3
           {| strategy := RuleBasedSummarizer; summary_history := [] |});
    [done|lia].
Defined.

Lemma summarize_memories_rule_based_witness :
  summary
    (summarize_memories "t0"
       [ {| m_text := Some (lit "tea at four in the garden");
            m_id := Some 7 |};
         {| m_text := None; m_id := Some 8 |} ]
       10 "general"
       {| strategy := RuleBasedSummarizer; summary_history := [] |}).1
  = lit "tea at fou..."
  ∧ len (summary
           (summarize_memories "t0"
              [ {| m_text := Some (lit "tea at four in the garden");
                   m_id := Some 7 |};
                {| m_text := None; m_id := Some 8 |} ]
              10 "general"
              {| strategy := RuleBasedSummarizer;
                 summary_history := [] |}).1)
    ≤ 10 + 3.
Proof.
  split; [by vm_compute|].
  apply (summarize_memories_rule_based "t0"
           [ {| m_text := Some (lit "tea at four in the garden");
                m_id := Some 7 |};
             {| m_text := None; m_id := Some 8 |} ]
           10 "general"
           {| strategy := RuleBasedSummarizer; summary_history := [] |});
    [lia|done].
Defined.

End MemorySummarizerFacts.
